(** * aitest: YouTube podcast -> article server (src/server.js)

    A shallow embedding of the text functions, the article dispatcher and the
    /api/generate handler of [src/server.js], and the properties of them that
    the specification states.  The script of the page,
    [src/public/app.js], is embedded after the handler, and the last part
    of the file holds properties of both that are read off the code. *)

From Stdlib Require Import List NArith Arith Bool Lia String Ascii.
From Equations Require Import Equations.
Import ListNotations.

Set Implicit Arguments.
Set Warnings "-register-all,-abstract-large-number".

(** ** JavaScript strings

    A JavaScript string is a sequence of UTF-16 code units; [length],
    [slice], [trim] and the regular expressions of the source all work on
    code units.  A code unit is a number below 65536; nothing below depends
    on that bound. *)

Module JS.

Definition code_unit := N.
Definition jsstring := list code_unit.

(** A string literal of the source (ASCII only). *)
Definition lit (s : string) : jsstring :=
  List.map N_of_ascii (list_ascii_of_string s).

Definition SP : code_unit := 32%N.
Definition LF : code_unit := 10%N.

(** [\s] of a regular expression, which is also what [trim] strips:
    WhiteSpace and LineTerminator of ECMA-262. *)
Definition is_space (c : code_unit) : bool :=
  ((9 <=? c) && (c <=? 13) || (c =? 32) || (c =? 160) || (c =? 5760)
   || (8192 <=? c) && (c <=? 8202) || (c =? 8232) || (c =? 8233)
   || (c =? 8239) || (c =? 8287) || (c =? 12288) || (c =? 65279))%N.

Definition eqb (a b : jsstring) : bool :=
  if list_eq_dec N.eq_dec a b then true else false.

(** A string is falsy exactly when it is empty. *)
Definition nonempty (s : jsstring) : bool :=
  match s with [] => false | _ :: _ => true end.

(** [s.replace(/\s+/g, " ")]: every maximal run of white space becomes one
    space.  [in_run] tells that the previous code unit was white space. *)
Fixpoint collapse_from (in_run : bool) (s : jsstring) : jsstring :=
  match s with
  | [] => []
  | c :: rest =>
      if is_space c
      then (if in_run then collapse_from true rest
            else SP :: collapse_from true rest)
      else c :: collapse_from false rest
  end.

Definition replace_spaces (s : jsstring) : jsstring := collapse_from false s.

Fixpoint trimStart (s : jsstring) : jsstring :=
  match s with
  | [] => []
  | c :: rest => if is_space c then trimStart rest else s
  end.

Definition trimEnd (s : jsstring) : jsstring :=
  rev_append (trimStart (rev_append s [])) [].

(** [s.trim()] *)
Definition trim (s : jsstring) : jsstring := trimEnd (trimStart s).

(** [x.slice(i, j)] for [0 <= i], [0 <= j], on strings and arrays. *)
Definition slice {A} (x : list A) (i j : nat) : list A :=
  firstn (j - i) (skipn i x).

(** [x.slice(-k)]: the last [k] elements. *)
Definition slice_last {A} (x : list A) (k : nat) : list A :=
  skipn (List.length x - k) x.

(** [parts.join(sep)] on an array of strings. *)
Fixpoint join (sep : jsstring) (parts : list jsstring) : jsstring :=
  match parts with
  | [] => []
  | [p] => p
  | p :: rest => p ++ sep ++ join sep rest
  end.



End JS.

Import JS.

(** ** Values and exceptions *)

Inductive exn :=
| TypeError
| Rejected (why : jsstring).

Inductive result (A : Type) :=
| Ok (a : A)
| Throw (e : exn).
Arguments Ok {A} a.
Arguments Throw {A} e.

Definition rbind {A B} (r : result A) (k : A -> result B) : result B :=
  match r with
  | Ok a => k a
  | Throw e => Throw e
  end.

Declare Scope js_scope.
Delimit Scope js_scope with js.
Notation "x <- r ;; k" := (rbind r (fun x => k))
  (at level 61, r at next level, right associativity) : js_scope.
Open Scope js_scope.

(** ** Transcript segments

    The transcript collaborator yields objects with a [text] property.  The
    property may be missing, and a present one is [undefined], [null] or a
    string. *)

Inductive text_value :=
| TUndefined
| TNull
| TStr (s : jsstring).

Record segment := { text_prop : option text_value }.

(** [segment.text] *)
Definition text (sg : segment) : text_value :=
  match text_prop sg with
  | None => TUndefined
  | Some v => v
  end.

Definition seg (s : jsstring) : segment := {| text_prop := Some (TStr s) |}.

(** [Array.prototype.join] renders [undefined] and [null] as the empty
    string. *)
Definition join_item (v : text_value) : jsstring :=
  match v with
  | TUndefined | TNull => []
  | TStr s => s
  end.

(** ** The text functions of server.js *)

Definition MAX_TRANSCRIPT_CHARS : nat := 12000.
Definition STYLE_LIMIT : nat := 240.
Definition DETAIL_LIMIT : nat := 500.

Definition normalizeTranscript (segments : list segment) : jsstring :=
  trim (replace_spaces (join (lit " ") (List.map join_item (List.map text segments)))).

Definition segmentsToText (segments : list segment) : jsstring :=
  trim (replace_spaces (join (lit " ") (List.map join_item (List.map text segments)))).

(** Lines 53-57 of the /api/generate handler: the transcript that is sent
    back, and the [truncated] flag. *)
Definition prepareTranscript (segments : list segment) : jsstring * bool :=
  let transcriptText := normalizeTranscript segments in
  let truncated := MAX_TRANSCRIPT_CHARS <? List.length transcriptText in
  let transcript :=
    if truncated
    then slice transcriptText 0 MAX_TRANSCRIPT_CHARS ++ lit " ..."
    else transcriptText in
  (transcript, truncated).

(** The total length of the segment texts, before any joining. *)
Definition total_text_length (segments : list segment) : nat :=
  list_sum (List.map (fun sg => List.length (join_item (text sg))) segments).

(** ** Request values

    The fields of a request body are whatever [express.json] parsed, or
    [undefined] when the field is missing.  A number is kept as what this
    code can observe of it: whether it is truthy (neither zero nor NaN) and
    the text [String] gives it. *)

Inductive jsval :=
| JUndefined
| JNull
| JBool (b : bool)
| JNum (nonzero : bool) (shown : jsstring)
| JStr (s : jsstring)
| JArr (items : list jsval)
| JObj (props : list (jsstring * jsval)).

Definition truthy (v : jsval) : bool :=
  match v with
  | JUndefined | JNull => false
  | JBool b => b
  | JNum nonzero _ => nonzero
  | JStr s => nonempty s
  | JArr _ | JObj _ => true
  end.

Definition has_own (key : jsstring) (props : list (jsstring * jsval)) : bool :=
  existsb (fun kv => JS.eqb (fst kv) key) props.

(** [String(v)].  An array is rendered by [Array.prototype.toString], that
    is [join(",")], which renders [undefined] and [null] items as empty.  A
    plain object is rendered by [Object.prototype.toString] unless it has a
    [toString] property of its own: a parsed property is never callable,
    [Object.prototype.valueOf] (or an own [valueOf]) gives no primitive
    either, and the conversion ends in a TypeError. *)
Fixpoint ToString (v : jsval) : result jsstring :=
  match v with
  | JUndefined => Ok (lit "undefined")
  | JNull => Ok (lit "null")
  | JBool true => Ok (lit "true")
  | JBool false => Ok (lit "false")
  | JNum _ shown => Ok shown
  | JStr s => Ok s
  | JArr items =>
      (fix join_items (xs : list jsval) : result jsstring :=
         match xs with
         | [] => Ok []
         | x :: rest =>
             a <- (match x with
                   | JUndefined | JNull => Ok []
                   | _ => ToString x
                   end) ;;
             match rest with
             | [] => Ok a
             | _ :: _ => b <- join_items rest ;; Ok (a ++ lit "," ++ b)
             end
         end) items
  | JObj props =>
      if has_own (lit "toString") props then Throw TypeError
      else Ok (lit "[object Object]")
  end.

Definition clampText (value : jsval) (maxLength : nat) : result jsstring :=
  if negb (truthy value) then Ok []
  else
    s <- ToString value ;;
    Ok (slice (trim (replace_spaces s)) 0 maxLength).

Definition buildStyleDescriptor (stylePreset styleDetail language : jsval)
  : result jsstring :=
  safePreset <- clampText stylePreset STYLE_LIMIT ;;
  safeDetail <- clampText styleDetail DETAIL_LIMIT ;;
  safeLanguage <- clampText language 40 ;;
  let parts := [] in
  let parts := if nonempty safePreset then parts ++ [safePreset] else parts in
  let parts := if nonempty safeDetail then parts ++ [safeDetail] else parts in
  let parts :=
    if nonempty safeLanguage && negb (JS.eqb safeLanguage (lit "auto"))
    then parts ++ [lit "Output language: " ++ safeLanguage]
    else parts in
  Ok (join (lit " | ") parts).

(** [s.toLowerCase()] on the ASCII letters.  Its only use is the key of
    [lengthMap] below, whose candidate keys are lower-case ASCII words
    without a [k]; no other code unit lower-cases to one of their letters,
    so the other mappings of Unicode cannot change the lookup. *)
Definition toLowerCase (s : jsstring) : jsstring :=
  List.map (fun c => if (65 <=? c) && (c <=? 90) then c + 32 else c)%N s.

(** [lengthSpecFromChoice].  Its result is only ever interpolated into a
    template literal, so it is kept as the text it shows there.
    [lengthMap] is an object literal: next to its three own keys, the
    lookup reaches the two lower-case properties it inherits from
    [Object.prototype], both truthy. *)
Definition lengthMap (key : jsstring) : option jsstring :=
  if JS.eqb key (lit "short") then Some (lit "300-450 words")
  else if JS.eqb key (lit "medium") then Some (lit "600-900 words")
  else if JS.eqb key (lit "long") then Some (lit "1000-1400 words")
  else if JS.eqb key (lit "constructor")
       then Some (lit "function Object() { [native code] }")
  else if JS.eqb key (lit "__proto__") then Some (lit "[object Object]")
  else None.

Definition lengthSpecFromChoice (choice : jsval) : result jsstring :=
  s <- ToString (if truthy choice then choice else JStr []) ;;
  let normalized := toLowerCase s in
  match lengthMap normalized with
  | Some spec => Ok spec
  | None => Ok (lit "600-900 words")
  end.

(** ** Rule-based synthesis *)

Definition text_truthy (v : text_value) : bool :=
  match v with
  | TUndefined | TNull => false
  | TStr s => nonempty s
  end.

(** [v.length]: reading a property of [undefined] or [null] throws. *)
Definition get_length (v : text_value) : result nat :=
  match v with
  | TUndefined | TNull => Throw TypeError
  | TStr s => Ok (List.length s)
  end.

(** [segments.find(p)] for a predicate that may throw. *)
Fixpoint find_segment (p : segment -> result bool) (segments : list segment)
  : result (option segment) :=
  match segments with
  | [] => Ok None
  | sg :: rest =>
      b <- p sg ;;
      if b then Ok (Some sg) else find_segment p rest
  end.

(** The receiver of a string method call must be a string. *)
Definition as_string (v : text_value) : result jsstring :=
  match v with
  | TUndefined | TNull => Throw TypeError
  | TStr s => Ok s
  end.

Definition default_title : jsstring := lit "Podcast Summary".

Definition buildTitle (segments : list segment) : result jsstring :=
  found <- find_segment
             (fun sg =>
                if text_truthy (text sg)
                then (n <- get_length (text sg) ;; Ok (5 <? n))
                else Ok false)
             segments ;;
  let found_text :=
    match found with
    | Some sg => text sg
    | None => TUndefined
    end in
  let seed := if text_truthy found_text then found_text else TStr default_title in
  s <- as_string seed ;;
  let cleaned := trim (replace_spaces s) in
  if negb (nonempty cleaned) then Ok default_title
  else if 70 <? List.length cleaned
       then Ok (trim (slice cleaned 0 70) ++ lit "...")
       else Ok cleaned.

(** The [for] loop of [samplePoints]: [i] is the loop index and [points]
    the array built so far.  [step] is at least 1 in the source; the loop
    is defined for such steps, written [S k].  (The source only calls it
    with [count = 5].  For [count = 0] JavaScript's step is [Infinity] and
    the model's is 1; the loop body runs in neither, since no array is
    shorter than 0.) *)
Equations? samplePoints_loop (segments : list segment) (count k : nat)
  (i : nat) (points : list jsstring) : list jsstring
  by wf (List.length segments - i) lt :=
  samplePoints_loop segments count k i points
    with lt_dec i (List.length segments) => {
    | right _ => points
    | left _ with List.length points <? count => {
      | false => points
      | true =>
          let chunk := segmentsToText (slice segments i (i + 3)) in
          samplePoints_loop segments count k (i + S k)
            (if nonempty chunk then points ++ [chunk] else points) } }.
Proof. lia. Qed.

Definition samplePoints (segments : list segment) (count : nat)
  : list jsstring :=
  if List.length segments =? 0 then []
  else
    let step := Nat.max 1 (List.length segments / count) in
    samplePoints_loop segments count (Nat.pred step) 0 [].

Definition default_closing : jsstring :=
  lit "The discussion concludes with a wrap-up of key takeaways.".

Definition ruleBasedArticle (segments : list segment)
  (styleDescriptor lengthSpec : jsstring) (truncated : bool)
  : result jsstring :=
  title <- buildTitle segments ;;
  let intro := segmentsToText (slice segments 0 6) in
  let closing := segmentsToText (slice_last segments 6) in
  let points := samplePoints segments 5 in
  let styleLine :=
    if nonempty styleDescriptor
    then lit "Style focus: " ++ styleDescriptor ++ lit "."
    else lit "Style focus: neutral summary." in
  let scopeLine :=
    if truncated
    then lit "Note: transcript truncated to fit context."
    else lit "Note: transcript fully included for this summary." in
  Ok (join [LF]
        [ lit "# " ++ title;
          [];
          lit "## Overview";
          styleLine ++ lit " " ++ intro;
          [];
          lit "Target length: " ++ lengthSpec ++ lit ".";
          [];
          lit "## Key Points";
          join [LF] (List.map (fun point => lit "- " ++ point) points);
          [];
          lit "## Closing";
          (if nonempty closing then closing else default_closing);
          [];
          lit "## Source Notes";
          scopeLine
            ++ lit " This article is generated from the transcript and may omit details." ]).

(** ** Regular expressions

    The two patterns given to [String.prototype.match] are run by a small
    backtracking matcher: alternatives are tried left to right, a repeated
    class is greedy and gives code units back down to its minimum, and the
    match starts at the leftmost position where one exists.  The groups of
    these patterns are not nested, so the captures come in the order of
    their opening parentheses. *)

Module Regex.

Inductive regex :=
| RLit (s : jsstring)
| RClass (p : code_unit -> bool) (min : nat)
| RSeq (a b : regex)
| RAlt (a b : regex)
| RGroup (a : regex).

Fixpoint strip_prefix (p s : jsstring) : option jsstring :=
  match p, s with
  | [], _ => Some s
  | _ :: _, [] => None
  | a :: p', b :: s' => if (a =? b)%N then strip_prefix p' s' else None
  end.

Fixpoint run_length (p : code_unit -> bool) (s : jsstring) : nat :=
  match s with
  | [] => 0
  | c :: rest => if p c then S (run_length p rest) else 0
  end.

Section Matcher.
Variable R : Type.

(** Try to continue after [j] code units, then after [j - 1], and so on
    down to [min]. *)
Fixpoint give_back (min : nat) (s : jsstring) (k : jsstring -> option R)
  (j : nat) : option R :=
  if j <? min then None
  else match k (skipn j s) with
       | Some x => Some x
       | None =>
           match j with
           | 0 => None
           | S j' => give_back min s k j'
           end
       end.

Fixpoint run (r : regex) (s : jsstring) (caps : list jsstring)
  (k : jsstring -> list jsstring -> option R) : option R :=
  match r with
  | RLit l =>
      match strip_prefix l s with
      | Some rest => k rest caps
      | None => None
      end
  | RClass p min =>
      give_back min s (fun rest => k rest caps) (run_length p s)
  | RSeq a b => run a s caps (fun rest caps' => run b rest caps' k)
  | RAlt a b =>
      match run a s caps k with
      | Some x => Some x
      | None => run b s caps k
      end
  | RGroup a =>
      run a s caps
        (fun rest caps' =>
           k rest (caps' ++ [firstn (List.length s - List.length rest) s]))
  end.
End Matcher.

(** [s.match(r)] for a pattern without the [g] flag: the captures of the
    leftmost match, or [None] for [null]. *)
Fixpoint exec (r : regex) (s : jsstring) : option (list jsstring) :=
  match run r s [] (fun _ caps => Some caps) with
  | Some caps => Some caps
  | None =>
      match s with
      | [] => None
      | _ :: rest => exec r rest
      end
  end.

End Regex.

Import Regex.

Definition is_id_char (c : code_unit) : bool :=
  ((97 <=? c) && (c <=? 122) || (65 <=? c) && (c <=? 90)
   || (48 <=? c) && (c <=? 57) || (c =? 95) || (c =? 45))%N.

(** [[^/?]] *)
Definition is_segment_char (c : code_unit) : bool :=
  negb ((c =? 47) || (c =? 63))%N.

(** [/\/(shorts|live|embed)\/([^/?]+)/] *)
Definition path_pattern : regex :=
  RSeq (RLit (lit "/"))
   (RSeq (RGroup (RAlt (RLit (lit "shorts"))
                   (RAlt (RLit (lit "live")) (RLit (lit "embed")))))
     (RSeq (RLit (lit "/")) (RGroup (RClass is_segment_char 1)))).

Definition id_prefixes : list jsstring :=
  [lit "v="; lit "youtu.be/"; lit "/shorts/"; lit "/live/"; lit "/embed/"].

(** [/(?:v=|youtu\.be\/|\/shorts\/|\/live\/|\/embed\/)([a-zA-Z0-9_-]{6,})/] *)
Definition fallback_pattern : regex :=
  RSeq (RAlt (RLit (lit "v="))
         (RAlt (RLit (lit "youtu.be/"))
           (RAlt (RLit (lit "/shorts/"))
             (RAlt (RLit (lit "/live/")) (RLit (lit "/embed/"))))))
       (RGroup (RClass is_id_char 6)).

(** ** The video id extractor *)

(** What the extractor reads of a parsed [URL]. *)
Record URL := {
  hostname : jsstring;
  pathname : jsstring;
  searchParams : list (jsstring * jsstring)
}.

(** [searchParams.get(name)]: the value of the first pair with that name. *)
Fixpoint searchParams_get (params : list (jsstring * jsstring))
  (name : jsstring) : option jsstring :=
  match params with
  | [] => None
  | (n, v) :: rest => if JS.eqb n name then Some v else searchParams_get rest name
  end.

(** [s.replace(pat, "")] with a string pattern: the first occurrence only. *)
Fixpoint remove_first (pat s : jsstring) : jsstring :=
  match strip_prefix pat s with
  | Some rest => rest
  | None =>
      match s with
      | [] => []
      | c :: s' => c :: remove_first pat s'
      end
  end.

(** [s.replace(/\//g, "")] *)
Definition remove_slashes (s : jsstring) : jsstring :=
  filter (fun c => negb (c =? 47)%N) s.

Definition endsWith (s suffix : jsstring) : bool :=
  match strip_prefix (rev suffix) (rev s) with
  | Some _ => true
  | None => false
  end.

Section Extractor.
(** [new URL(input)] of the platform: a URL record, or a TypeError. *)
Variable URL_new : jsstring -> result URL.

(** The [try] block: [Ok (Some id)] when it returns, [Ok None] when it
    falls through to the code after it. *)
Definition extractVideoId_try (trimmed : jsstring)
  : result (option jsstring) :=
  parsed <- URL_new trimmed ;;
  let host := remove_first (lit "www.") (hostname parsed) in
  if JS.eqb host (lit "youtu.be")
  then Ok (Some (remove_slashes (pathname parsed)))
  else
    if endsWith host (lit "youtube.com")
    then
      match searchParams_get (searchParams parsed) (lit "v") with
      | Some idFromQuery =>
          if nonempty idFromQuery then Ok (Some idFromQuery)
          else
            match exec path_pattern (pathname parsed) with
            | Some pathMatch => Ok (Some (nth 1 pathMatch []))
            | None => Ok None
            end
      | None =>
          match exec path_pattern (pathname parsed) with
          | Some pathMatch => Ok (Some (nth 1 pathMatch []))
          | None => Ok None
          end
      end
    else Ok None.

(** The result is a string or [null]. *)
Definition extractVideoId (input : jsstring) : result jsval :=
  let trimmed := trim input in
  match extractVideoId_try trimmed with
  | Ok (Some id) => Ok (JStr id)
  | Ok None | Throw _ =>
      match exec fallback_pattern trimmed with
      | Some fallbackMatch => Ok (JStr (nth 0 fallbackMatch []))
      | None => Ok JNull
      end
  end.
End Extractor.

(** ** The platform's URL parser

    [new URL] is the WHATWG parser of the platform, not code of this
    repository.  Two parts of its algorithm are written out here, and the
    parser is only ever assumed to agree with them:
    - without a base URL, an input that does not begin with a scheme
      ([alpha (alnum | + | - | .)* :], after the parser has dropped leading
      and trailing C0 controls and spaces and all tabs and newlines) fails;
    - an input [http://host/path?query] or [https://...] whose host is made
      of dot-separated labels of lower-case letters, whose path holds only
      letters, digits, [_], [-] and [/], and whose query holds only those,
      [=] and [&], parses to exactly these components (nothing in it is
      percent-encoded, lower-cased, or a dot segment), and its search
      parameters are the [&]-separated [name=value] pairs. *)

Module Whatwg.

Definition is_lower (c : code_unit) : bool := ((97 <=? c) && (c <=? 122))%N.
Definition is_alpha (c : code_unit) : bool :=
  (is_lower c || (65 <=? c) && (c <=? 90))%N.
Definition is_digit (c : code_unit) : bool := ((48 <=? c) && (c <=? 57))%N.

Definition is_c0_or_space (c : code_unit) : bool := (c <=? 32)%N.
Definition is_tab_or_newline (c : code_unit) : bool :=
  ((c =? 9) || (c =? 10) || (c =? 13))%N.

Fixpoint drop_while (p : code_unit -> bool) (s : jsstring) : jsstring :=
  match s with
  | [] => []
  | c :: rest => if p c then drop_while p rest else s
  end.

Fixpoint take_while (p : code_unit -> bool) (s : jsstring) : jsstring :=
  match s with
  | [] => []
  | c :: rest => if p c then c :: take_while p rest else []
  end.

Definition preprocess (s : jsstring) : jsstring :=
  filter (fun c => negb (is_tab_or_newline c))
    (rev (drop_while is_c0_or_space (rev (drop_while is_c0_or_space s)))).

Definition is_scheme_char (c : code_unit) : bool :=
  (is_alpha c || is_digit c || (c =? 43) || (c =? 45) || (c =? 46))%N.

Definition has_scheme (s : jsstring) : bool :=
  match s with
  | [] => false
  | c :: rest =>
      is_alpha c &&
      match drop_while is_scheme_char rest with
      | c' :: _ => (c' =? 58)%N
      | [] => false
      end
  end.

Fixpoint labels_ok (at_start : bool) (h : jsstring) : bool :=
  match h with
  | [] => negb at_start
  | c :: rest =>
      if (c =? 46)%N then negb at_start && labels_ok true rest
      else is_lower c && labels_ok false rest
  end.

Definition is_path_char (c : code_unit) : bool :=
  (is_id_char c || (c =? 47))%N.
Definition is_query_char (c : code_unit) : bool :=
  (is_id_char c || (c =? 61) || (c =? 38))%N.

Fixpoint split_on (sep : code_unit) (cur : jsstring) (s : jsstring)
  : list jsstring :=
  match s with
  | [] => [rev cur]
  | c :: rest =>
      if (c =? sep)%N then rev cur :: split_on sep [] rest
      else split_on sep (c :: cur) rest
  end.

Definition parse_pair (piece : jsstring) : jsstring * jsstring :=
  (take_while (fun c => negb (c =? 61)%N) piece,
   match drop_while (fun c => negb (c =? 61)%N) piece with
   | [] => []
   | _ :: value => value
   end).

Definition parse_query (q : jsstring) : list (jsstring * jsstring) :=
  List.map parse_pair (filter nonempty (split_on 38%N [] q)).

Definition after_scheme (s : jsstring) : option jsstring :=
  match strip_prefix (lit "https://") s with
  | Some rest => Some rest
  | None => strip_prefix (lit "http://") s
  end.

Definition ends_host (c : code_unit) : bool :=
  ((c =? 47) || (c =? 63) || (c =? 35))%N.

Definition parse_http (s : jsstring) : option URL :=
  match after_scheme s with
  | None => None
  | Some rest =>
      let host := take_while (fun c => negb (ends_host c)) rest in
      let after_host := drop_while (fun c => negb (ends_host c)) rest in
      let path := take_while is_path_char after_host in
      let after_path := drop_while is_path_char after_host in
      if labels_ok true host then
        match after_path with
        | [] =>
            Some {| hostname := host;
                    pathname := if nonempty path then path else lit "/";
                    searchParams := [] |}
        | c :: q =>
            if (c =? 63)%N && forallb is_query_char q
            then Some {| hostname := host;
                         pathname := if nonempty path then path else lit "/";
                         searchParams := parse_query q |}
            else None
        end
      else None
  end.

(** [Some r]: the parser is known to answer [r]; [None]: not written out. *)
Definition URL_model (s : jsstring) : option (result URL) :=
  if negb (has_scheme (preprocess s)) then Some (Throw TypeError)
  else
    match parse_http s with
    | Some u => Some (Ok u)
    | None => None
    end.

Definition conforms (URL_new : jsstring -> result URL) : Prop :=
  forall s r, URL_model s = Some r -> URL_new s = r.

(** A parser that conforms: it rejects what is not written out. *)
Definition URL_basic (s : jsstring) : result URL :=
  match URL_model s with
  | Some r => r
  | None => Throw TypeError
  end.

End Whatwg.

(** ** Collaborators and effects

    The handler talks to three things outside the process image: the
    environment, the transcript service and the language model.  A [World]
    fixes what they answer during one request; every call made and every
    line written with [console.error] is appended to a log. *)

Record create_params := {
  model : jsstring;
  system_content : jsstring;
  user_content : jsstring;
  max_output_tokens : nat;
  temperature : nat * nat          (* a fraction: 0.5 is (1, 2) *)
}.

Record response := { output_text : jsval }.

Record World := {
  OPENAI_API_KEY : option jsstring;
  OPENAI_MODEL : option jsstring;
  URL_new : jsstring -> result URL;
  fetchTranscript : jsstring -> result (option (list segment));
  responses_create : create_params -> result response
}.

Inductive event :=
| FetchTranscript (videoId : jsstring)
| ResponsesCreate (p : create_params)
| ConsoleError (label : jsstring) (error : exn).

Definition M (A : Type) : Type := list event -> result A * list event.

Definition ret {A} (a : A) : M A := fun log => (Ok a, log).
Definition raise {A} (e : exn) : M A := fun log => (Throw e, log).
Definition bind {A B} (m : M A) (k : A -> M B) : M B :=
  fun log =>
    match m log with
    | (Ok a, log') => k a log'
    | (Throw e, log') => (Throw e, log')
    end.
Definition lift {A} (r : result A) : M A := fun log => (r, log).
Definition emit (ev : event) : M unit := fun log => (Ok tt, log ++ [ev]).
Definition try_catch {A} (body : M A) (handler : exn -> M A) : M A :=
  fun log =>
    match body log with
    | (Ok a, log') => (Ok a, log')
    | (Throw e, log') => handler e log'
    end.

Notation "x <~ m ;; k" := (bind m (fun x => k))
  (at level 61, m at next level, right associativity) : js_scope.

(** An environment variable is [undefined] or a string. *)
Definition env_truthy (v : option jsstring) : bool :=
  match v with
  | Some s => nonempty s
  | None => false
  end.

(** [v.trim()] on what [response.output_text || ""] gave: only a string has
    the method. *)
Definition call_trim (v : jsval) : result jsstring :=
  match v with
  | JStr s => Ok (trim s)
  | _ => Throw TypeError
  end.

(** The request [generateWithOpenAI] builds for [client.responses.create].
    ([new OpenAI({ apiKey })] only stores the key; the call is where the
    collaborator is reached.) *)
Definition openai_request (w : World) (transcript styleDescriptor
  lengthSpec : jsstring) (truncated : bool) : create_params :=
  let model :=
    if env_truthy (OPENAI_MODEL w)
    then match OPENAI_MODEL w with Some m => m | None => [] end
    else lit "gpt-4o-mini" in
  let systemPrompt :=
    lit "You turn podcast transcripts into structured articles. "
    ++ lit "Do not invent details that are not in the transcript." in
  let styleLine :=
    if nonempty styleDescriptor
    then lit "Style notes: " ++ styleDescriptor ++ lit "."
    else lit "Style notes: neutral professional tone." in
  let transcriptLine :=
    if truncated then lit "Transcript (truncated for length):"
    else lit "Transcript:" in
  let userPrompt :=
    join [LF; LF]
      [ styleLine;
        lit "Target length: " ++ lengthSpec ++ lit ".";
        lit "Provide a title, section headings, and a short key points list.";
        transcriptLine;
        transcript ] in
  {| model := model;
     system_content := systemPrompt;
     user_content := userPrompt;
     max_output_tokens := 1200;
     temperature := (1, 2) |}.

Definition generateWithOpenAI (w : World) (transcript styleDescriptor
  lengthSpec : jsstring) (truncated : bool) : M jsstring :=
  let params :=
    openai_request w transcript styleDescriptor lengthSpec truncated in
  _ <~ emit (ResponsesCreate params) ;;
  resp <~ lift (responses_create w params) ;;
  lift (call_trim (if truthy (output_text resp) then output_text resp
                   else JStr [])).

Record GenerationRequest := {
  transcript : jsstring;
  segments : list segment;
  stylePreset : jsval;
  styleDetail : jsval;
  length : jsval;
  language : jsval;
  truncated : bool
}.

Record GenerationResult := {
  article_text : jsstring;
  mode : jsstring
}.

Definition generateArticle (w : World) (req : GenerationRequest)
  : M GenerationResult :=
  styleDescriptor <~ lift (buildStyleDescriptor (stylePreset req)
                             (styleDetail req) (language req)) ;;
  lengthSpec <~ lift (lengthSpecFromChoice (length req)) ;;
  (** [Some r]: the [if] block returned [r]; [None]: control reached the
      statement after it. *)
  returned <~
    (if env_truthy (OPENAI_API_KEY w)
     then
       try_catch
         (text <~ generateWithOpenAI w (transcript req) styleDescriptor
                    lengthSpec (truncated req) ;;
          if nonempty text
          then ret (Some {| article_text := text; mode := lit "openai" |})
          else ret None)
         (fun error =>
            _ <~ emit (ConsoleError (lit "OpenAI generation failed:") error) ;;
            ret None)
     else ret None) ;;
  match returned with
  | Some r => ret r
  | None =>
      text <~ lift (ruleBasedArticle (segments req) styleDescriptor lengthSpec
                      (truncated req)) ;;
      ret {| article_text := text; mode := lit "fallback" |}
  end.

(** ** The /api/generate handler *)

Record body := {
  url : jsval;
  body_stylePreset : jsval;
  body_styleDetail : jsval;
  body_length : jsval;
  body_language : jsval
}.

Inductive payload :=
| ErrorJson (error : jsstring)
| ResultJson (videoId transcript : jsstring) (truncated : bool)
    (article mode : jsstring).

Record http_response := { status : nat; json : payload }.

Definition api_generate (w : World) (b : body) : M http_response :=
  match url b with
  | JStr u =>
      if negb (nonempty u)
      then ret {| status := 400; json := ErrorJson (lit "Please provide a YouTube URL.") |}
      else
        videoId <~ lift (extractVideoId (URL_new w) u) ;;
        match videoId with
        | JStr id =>
            if negb (nonempty id)
            then ret {| status := 400;
                        json := ErrorJson (lit "Unable to parse the YouTube video ID.") |}
            else
              fetched <~
                try_catch
                  (_ <~ emit (FetchTranscript id) ;;
                   s <~ lift (fetchTranscript w id) ;;
                   ret (Some s))
                  (fun error =>
                     _ <~ emit (ConsoleError (lit "Transcript fetch failed:") error) ;;
                     ret None) ;;
              match fetched with
              | None =>
                  ret {| status := 502;
                         json := ErrorJson
                           (lit "Failed to fetch the transcript. Check if captions are available.") |}
              | Some None | Some (Some []) =>
                  ret {| status := 404;
                         json := ErrorJson (lit "No transcript found for this video.") |}
              | Some (Some segments) =>
                  let (transcript, truncated) := prepareTranscript segments in
                  try_catch
                    (r <~ generateArticle w
                            {| transcript := transcript;
                               segments := segments;
                               stylePreset := body_stylePreset b;
                               styleDetail := body_styleDetail b;
                               length := body_length b;
                               language := body_language b;
                               truncated := truncated |} ;;
                     ret {| status := 200;
                            json := ResultJson id transcript truncated
                                      (article_text r) (mode r) |})
                    (fun error =>
                       _ <~ emit (ConsoleError (lit "Article generation failed:") error) ;;
                       ret {| status := 500;
                              json := ErrorJson (lit "Failed to generate article.") |})
              end
        | _ =>
            ret {| status := 400;
                   json := ErrorJson (lit "Unable to parse the YouTube video ID.") |}
        end
  | _ => ret {| status := 400; json := ErrorJson (lit "Please provide a YouTube URL.") |}
  end.

(** ** The page (public/app.js)

    The script keeps no state of its own: what it reads and writes are the
    form controls and the output elements of the document.  [Page] holds
    the properties of those elements that the script touches. *)

Record Page := {
  urlInput_value : jsstring;
  stylePresetInput_value : jsstring;
  styleDetailInput_value : jsstring;
  lengthInput_value : jsstring;
  languageInput_value : jsstring;
  statusEl_textContent : jsstring;
  statusEl_error : bool;               (* the class [error] of the status *)
  transcriptEl_textContent : jsstring;
  articleEl_textContent : jsstring;
  modeEl_textContent : jsstring;
  truncationNote_hidden : bool;
  submitBtn_disabled : bool;
  submitBtn_textContent : jsstring
}.

Definition defaultStatus : jsstring :=
  lit "Paste a YouTube URL and click Generate to see results.".

Definition setStatus (message : jsstring) (isError : bool) (pg : Page)
  : Page :=
  {| urlInput_value := urlInput_value pg;
     stylePresetInput_value := stylePresetInput_value pg;
     styleDetailInput_value := styleDetailInput_value pg;
     lengthInput_value := lengthInput_value pg;
     languageInput_value := languageInput_value pg;
     statusEl_textContent := message;
     statusEl_error := isError;
     transcriptEl_textContent := transcriptEl_textContent pg;
     articleEl_textContent := articleEl_textContent pg;
     modeEl_textContent := modeEl_textContent pg;
     truncationNote_hidden := truncationNote_hidden pg;
     submitBtn_disabled := submitBtn_disabled pg;
     submitBtn_textContent := submitBtn_textContent pg |}.

Definition set_modeEl_textContent (label : jsstring) (pg : Page) : Page :=
  {| urlInput_value := urlInput_value pg;
     stylePresetInput_value := stylePresetInput_value pg;
     styleDetailInput_value := styleDetailInput_value pg;
     lengthInput_value := lengthInput_value pg;
     languageInput_value := languageInput_value pg;
     statusEl_textContent := statusEl_textContent pg;
     statusEl_error := statusEl_error pg;
     transcriptEl_textContent := transcriptEl_textContent pg;
     articleEl_textContent := articleEl_textContent pg;
     modeEl_textContent := label;
     truncationNote_hidden := truncationNote_hidden pg;
     submitBtn_disabled := submitBtn_disabled pg;
     submitBtn_textContent := submitBtn_textContent pg |}.

Definition updateMode (mode : jsval) (pg : Page) : Page :=
  if negb (truthy mode) then set_modeEl_textContent [] pg
  else
    set_modeEl_textContent
      (match mode with
       | JStr s =>
           if JS.eqb s (lit "openai") then lit "Generation: OpenAI"
           else lit "Generation: Rule-based (no API key detected)"
       | _ => lit "Generation: Rule-based (no API key detected)"
       end) pg.

Definition set_transcriptEl_textContent (content : jsstring) (pg : Page)
  : Page :=
  {| urlInput_value := urlInput_value pg;
     stylePresetInput_value := stylePresetInput_value pg;
     styleDetailInput_value := styleDetailInput_value pg;
     lengthInput_value := lengthInput_value pg;
     languageInput_value := languageInput_value pg;
     statusEl_textContent := statusEl_textContent pg;
     statusEl_error := statusEl_error pg;
     transcriptEl_textContent := content;
     articleEl_textContent := articleEl_textContent pg;
     modeEl_textContent := modeEl_textContent pg;
     truncationNote_hidden := truncationNote_hidden pg;
     submitBtn_disabled := submitBtn_disabled pg;
     submitBtn_textContent := submitBtn_textContent pg |}.

Definition set_articleEl_textContent (content : jsstring) (pg : Page)
  : Page :=
  {| urlInput_value := urlInput_value pg;
     stylePresetInput_value := stylePresetInput_value pg;
     styleDetailInput_value := styleDetailInput_value pg;
     lengthInput_value := lengthInput_value pg;
     languageInput_value := languageInput_value pg;
     statusEl_textContent := statusEl_textContent pg;
     statusEl_error := statusEl_error pg;
     transcriptEl_textContent := transcriptEl_textContent pg;
     articleEl_textContent := content;
     modeEl_textContent := modeEl_textContent pg;
     truncationNote_hidden := truncationNote_hidden pg;
     submitBtn_disabled := submitBtn_disabled pg;
     submitBtn_textContent := submitBtn_textContent pg |}.

Definition set_truncationNote_hidden (hidden : bool) (pg : Page) : Page :=
  {| urlInput_value := urlInput_value pg;
     stylePresetInput_value := stylePresetInput_value pg;
     styleDetailInput_value := styleDetailInput_value pg;
     lengthInput_value := lengthInput_value pg;
     languageInput_value := languageInput_value pg;
     statusEl_textContent := statusEl_textContent pg;
     statusEl_error := statusEl_error pg;
     transcriptEl_textContent := transcriptEl_textContent pg;
     articleEl_textContent := articleEl_textContent pg;
     modeEl_textContent := modeEl_textContent pg;
     truncationNote_hidden := hidden;
     submitBtn_disabled := submitBtn_disabled pg;
     submitBtn_textContent := submitBtn_textContent pg |}.

Definition clearOutputs (pg : Page) : Page :=
  set_truncationNote_hidden true
    (set_articleEl_textContent [] (set_transcriptEl_textContent [] pg)).

Definition setLoading (isLoading : bool) (pg : Page) : Page :=
  {| urlInput_value := urlInput_value pg;
     stylePresetInput_value := stylePresetInput_value pg;
     styleDetailInput_value := styleDetailInput_value pg;
     lengthInput_value := lengthInput_value pg;
     languageInput_value := languageInput_value pg;
     statusEl_textContent := statusEl_textContent pg;
     statusEl_error := statusEl_error pg;
     transcriptEl_textContent := transcriptEl_textContent pg;
     articleEl_textContent := articleEl_textContent pg;
     modeEl_textContent := modeEl_textContent pg;
     truncationNote_hidden := truncationNote_hidden pg;
     submitBtn_disabled := isLoading;
     submitBtn_textContent :=
       if isLoading then lit "Working..." else lit "Generate article" |}.

(** What the script can catch: a TypeError of the engine (a property read
    of [null], a value [String] cannot convert), or an [Error] object with
    a message, made by [new Error] or delivered by a rejected promise. *)
Inductive thrown :=
| ReadOfNull (property : jsstring)
| NotPrimitive
| ErrorObject (message : jsstring).

Inductive completion (A : Type) :=
| Normal (a : A)
| Abrupt (t : thrown).
Arguments Normal {A} a.
Arguments Abrupt {A} t.

(** [fetch] followed by [response.json()]: one of the two promises is
    rejected, or there is a response with its [ok] flag and parsed body. *)
Inductive fetch_outcome :=
| Fails (message : jsstring)
| Responds (ok : bool) (payload : jsval).

Record Browser := {
  fetch : body -> fetch_outcome;
  engine_message : thrown -> jsstring;   (* the text of the engine's TypeErrors *)
  writeText : jsstring -> bool           (* [true]: the promise is fulfilled *)
}.

Definition error_message (br : Browser) (error : thrown) : jsstring :=
  match error with
  | ErrorObject message => message
  | _ => engine_message br error
  end.

Definition Script (A : Type) : Type := Page -> completion A * Page.

Definition done {A} (a : A) : Script A := fun pg => (Normal a, pg).
Definition throw {A} (t : thrown) : Script A := fun pg => (Abrupt t, pg).
Definition update (f : Page -> Page) : Script unit :=
  fun pg => (Normal tt, f pg).
Definition next {A B} (m : Script A) (k : A -> Script B) : Script B :=
  fun pg =>
    match m pg with
    | (Normal a, pg') => k a pg'
    | (Abrupt t, pg') => (Abrupt t, pg')
    end.

Notation "x <== m ;; k" := (next m (fun x => k))
  (at level 61, m at next level, right associativity) : js_scope.

(** [payload.key] on a parsed JSON value: the keys read here are on no
    prototype, so only an object can hold them. *)
Definition read (payload : jsval) (key : jsstring) : Script jsval :=
  match payload with
  | JUndefined | JNull => throw (ReadOfNull key)
  | JObj props =>
      done (match find (fun kv => JS.eqb (fst kv) key) props with
            | Some kv => snd kv
            | None => JUndefined
            end)
  | _ => done JUndefined
  end.

(** The conversion to a string made by [new Error(v)] and by the
    [textContent] setter. *)
Definition to_text (v : jsval) : Script jsstring :=
  match ToString v with
  | Ok s => done s
  | Throw _ => throw NotPrimitive
  end.

Definition or_else (v fallback : jsval) : jsval :=
  if truthy v then v else fallback.

(** The [try] block of the submit handler, from the answer on. *)
Definition show_response (outcome : fetch_outcome) : Script unit :=
  match outcome with
  | Fails message => throw (ErrorObject message)
  | Responds ok payload =>
      if negb ok
      then
        error <== read payload (lit "error") ;;
        message <== to_text (or_else error (JStr (lit "Request failed."))) ;;
        throw (ErrorObject message)
      else
        transcript <== read payload (lit "transcript") ;;
        content <== to_text (or_else transcript (JStr [])) ;;
        _ <== update (set_transcriptEl_textContent content) ;;
        article <== read payload (lit "article") ;;
        content <== to_text (or_else article (JStr [])) ;;
        _ <== update (set_articleEl_textContent content) ;;
        mode <== read payload (lit "mode") ;;
        _ <== update (updateMode mode) ;;
        truncated <== read payload (lit "truncated") ;;
        _ <== update (set_truncationNote_hidden (negb (truthy truncated))) ;;
        update (setStatus (lit "Done! Review the transcript and article below.")
                  false)
  end.

(** The request the page sends: every field is the value of a control. *)
Definition request_body (url : jsstring) (pg : Page) : body :=
  {| url := JStr url;
     body_stylePreset := JStr (stylePresetInput_value pg);
     body_styleDetail := JStr (styleDetailInput_value pg);
     body_length := JStr (lengthInput_value pg);
     body_language := JStr (languageInput_value pg) |}.

(** The page while the request is under way. *)
Definition waiting (pg : Page) : Page :=
  clearOutputs
    (setStatus (lit "Fetching transcript and generating article...") false
       (setLoading true pg)).

(** The submit handler: the page it leaves and the requests it has sent.
    The handler is taken as a whole, from the click to the end of its
    [finally] block: no other event is handled while it waits. *)
Definition on_submit (br : Browser) (pg : Page) : Page * list body :=
  let url := trim (urlInput_value pg) in
  if negb (nonempty url)
  then (setStatus (lit "Please provide a YouTube URL.") true pg, [])
  else
    let request := request_body url pg in
    let (completed, pg') := show_response (fetch br request) (waiting pg) in
    let pg'' :=
      match completed with
      | Normal _ => pg'
      | Abrupt error =>
          let message := error_message br error in
          setStatus (if nonempty message then message
                     else lit "Something went wrong.") true pg'
      end in
    (setLoading false pg'', [request]).

(** The elements a copy button can name: those of [Page], or an element
    the script does not touch otherwise, given by its text. *)
Inductive element :=
| StatusEl | TranscriptEl | ArticleEl | ModeEl | SubmitBtn
| OtherEl (content : jsstring).

Definition textContent (el : element) (pg : Page) : jsstring :=
  match el with
  | StatusEl => statusEl_textContent pg
  | TranscriptEl => transcriptEl_textContent pg
  | ArticleEl => articleEl_textContent pg
  | ModeEl => modeEl_textContent pg
  | SubmitBtn => submitBtn_textContent pg
  | OtherEl content => content
  end.

(** The click handler of a copy button whose target is [targetEl] ([None]:
    no such element): the page it leaves and what reached the clipboard. *)
Definition on_copy (br : Browser) (targetEl : option element) (pg : Page)
  : Page * list jsstring :=
  match targetEl with
  | None => (setStatus (lit "Nothing to copy yet.") true pg, [])
  | Some el =>
      let content := trim (textContent el pg) in
      if negb (nonempty content)
      then (setStatus (lit "Nothing to copy yet.") true pg, [])
      else
        if writeText br content
        then (setStatus (lit "Copied to clipboard.") false pg, [content])
        else (setStatus (lit "Clipboard copy failed.") true pg, [])
  end.

(** *** The page in front of this server *)

(** What [res.status(..).json(..)] puts on the wire and [response.json()]
    reads back. *)
Definition json_of (p : payload) : jsval :=
  match p with
  | ErrorJson error => JObj [(lit "error", JStr error)]
  | ResultJson videoId transcript truncated article mode =>
      JObj [ (lit "videoId", JStr videoId);
             (lit "transcript", JStr transcript);
             (lit "truncated", JBool truncated);
             (lit "article", JStr article);
             (lit "mode", JStr mode) ]
  end.

Definition response_ok (code : nat) : bool := (200 <=? code) && (code <=? 299).

(** A browser whose [fetch] reaches the handler in world [w]. *)
Definition browser_of (w : World) (engine : thrown -> jsstring)
  (clipboard : jsstring -> bool) : Browser :=
  {| fetch := fun b =>
       match api_generate w b [] with
       | (Ok resp, _) => Responds (response_ok (status resp)) (json_of (json resp))
       | (Throw _, _) => Fails []
       end;
     engine_message := engine;
     writeText := clipboard |}.

(** ** Vocabulary of the properties *)

(** White space occurs only as single spaces; with [after_space] the string
    may not begin with one either. *)
Fixpoint no_runs (after_space : bool) (s : jsstring) : bool :=
  match s with
  | [] => true
  | c :: rest =>
      if is_space c
      then (c =? SP)%N && negb after_space && no_runs true rest
      else no_runs false rest
  end.

Definition starts_with_space (s : jsstring) : bool :=
  match s with
  | [] => false
  | c :: _ => is_space c
  end.

(** Whitespace-normalized text: single spaces between words, none at either
    end. *)
Definition whitespace_normal (s : jsstring) : bool :=
  no_runs true s && negb (starts_with_space (rev s)).

Definition blank (s : jsstring) : bool := forallb is_space s.

Definition no_newline (s : jsstring) : bool :=
  forallb (fun c => negb (c =? LF)%N) s.

(** The title made from a seed text, in the words of the specification:
    cleaned, capped at 70 code units with an ellipsis when longer, and the
    default title when nothing is left. *)
Definition title_of (seed : jsstring) : jsstring :=
  let cleaned := trim (replace_spaces seed) in
  if nonempty cleaned
  then (if 70 <? List.length cleaned
        then trim (firstn 70 cleaned) ++ lit "..."
        else cleaned)
  else default_title.

(** The length of a segment's text, a missing text counting as empty. *)
Definition text_length (sg : segment) : nat :=
  List.length (join_item (text sg)).

(** The key-point sampler in the words of the specification: windows of
    three segments start at the indices [0, step, 2 * step, ...] below the
    number of segments. *)
Definition ceil_div (a b : nat) : nat := (a + b - 1) / b.

Definition window_starts (n step : nat) : list nat :=
  List.map (fun j => j * step) (seq 0 (ceil_div n step)).

Definition window (segs : list segment) (i : nat) : jsstring :=
  segmentsToText (slice segs i (i + 3)).

(** A text with a code unit that is not white space. *)
Definition has_word (sg : segment) : bool := negb (blank (join_item (text sg))).





(** A segment whose missing, [undefined] or [null] text is replaced by the
    empty string. *)
Definition text_or_empty (sg : segment) : segment := seg (join_item (text sg)).

(** The values [String] converts without throwing: everything but a plain
    object with a [toString] property of its own, alone or inside arrays. *)
Fixpoint stringifiable (v : jsval) : bool :=
  match v with
  | JArr items =>
      (fix all (xs : list jsval) : bool :=
         match xs with
         | [] => true
         | x :: rest => stringifiable x && all rest
         end) items
  | JObj props => negb (has_own (lit "toString") props)
  | _ => true
  end.

(** A Generation Request as the specification types it: the style fields
    and the length choice are strings. *)
Definition typed_request (transcript : jsstring) (segments : list segment)
  (stylePreset styleDetail length language : jsstring) (truncated : bool)
  : GenerationRequest :=
  {| transcript := transcript;
     segments := segments;
     stylePreset := JStr stylePreset;
     styleDetail := JStr styleDetail;
     length := JStr length;
     language := JStr language;
     truncated := truncated |}.

(** Worlds for the examples: no language-model key; a key and a model that
    answers with a text; a key and a model that fails.  The transcript
    service answers with one segment. *)
Definition world_without_key : World :=
  {| OPENAI_API_KEY := None;
     OPENAI_MODEL := None;
     URL_new := Whatwg.URL_basic;
     fetchTranscript := fun _ => Ok (Some [seg (lit "Hello and welcome")]);
     responses_create := fun _ => Throw (Rejected (lit "unreachable")) |}.

Definition world_answering (answer : jsval) : World :=
  {| OPENAI_API_KEY := Some (lit "sk-test");
     OPENAI_MODEL := None;
     URL_new := Whatwg.URL_basic;
     fetchTranscript := fun _ => Ok (Some [seg (lit "Hello and welcome")]);
     responses_create := fun _ => Ok {| output_text := answer |} |}.

Definition world_failing : World :=
  {| OPENAI_API_KEY := Some (lit "sk-test");
     OPENAI_MODEL := None;
     URL_new := Whatwg.URL_basic;
     fetchTranscript := fun _ => Ok (Some [seg (lit "Hello and welcome")]);
     responses_create := fun _ => Throw (Rejected (lit "network")) |}.

(** The URL shapes of the specification.  [id] is the embedded id. *)
Inductive scheme := Http | Https.

Definition scheme_text (sc : scheme) : jsstring :=
  match sc with
  | Http => lit "http://"
  | Https => lit "https://"
  end.

Inductive subdomain := Bare | Www | Mobile | Music.

Definition subdomain_text (sub : subdomain) : jsstring :=
  match sub with
  | Bare => []
  | Www => lit "www."
  | Mobile => lit "m."
  | Music => lit "music."
  end.

Inductive path_kind := Shorts | Live | Embed.

Definition kind_text (kind : path_kind) : jsstring :=
  match kind with
  | Shorts => lit "shorts"
  | Live => lit "live"
  | Embed => lit "embed"
  end.

Inductive url_shape :=
| ShortLink (www : bool)                        (* youtu.be/<id> *)
| Watch (sub : subdomain) (extra : jsstring)    (* youtube.com/watch?v=<id><extra> *)
| PathForm (sub : subdomain) (kind : path_kind) (* youtube.com/<kind>/<id> *).

Definition youtube_url (sc : scheme) (shape : url_shape) (id : jsstring)
  : jsstring :=
  scheme_text sc ++
  match shape with
  | ShortLink www =>
      (if www then lit "www." else []) ++ lit "youtu.be/" ++ id
  | Watch sub extra =>
      subdomain_text sub ++ lit "youtube.com/watch?v=" ++ id ++ extra
  | PathForm sub kind =>
      subdomain_text sub ++ lit "youtube.com/" ++ kind_text kind ++ lit "/" ++ id
  end.

(** The components of a URL of one of these shapes. *)
Definition shape_host (shape : url_shape) : jsstring :=
  match shape with
  | ShortLink www => (if www then lit "www." else []) ++ lit "youtu.be"
  | Watch sub _ | PathForm sub _ => subdomain_text sub ++ lit "youtube.com"
  end.

Definition shape_path (shape : url_shape) (id : jsstring) : jsstring :=
  match shape with
  | ShortLink _ => lit "/" ++ id
  | Watch _ _ => lit "/watch"
  | PathForm _ kind => lit "/" ++ kind_text kind ++ lit "/" ++ id
  end.

Definition shape_query (shape : url_shape) (id : jsstring) : jsstring :=
  match shape with
  | Watch _ extra => lit "?v=" ++ id ++ extra
  | _ => []
  end.

(** A non-empty id over [A-Za-z0-9_-]. *)
Definition valid_id (id : jsstring) : bool :=
  nonempty id && forallb is_id_char id.

(** Extra query parameters: nothing, or [&] and more of the query. *)
Definition valid_extra (extra : jsstring) : bool :=
  match extra with
  | [] => true
  | c :: rest => (c =? 38)%N && forallb Whatwg.is_query_char rest
  end.

Definition valid_shape (shape : url_shape) : bool :=
  match shape with
  | Watch _ extra => valid_extra extra
  | _ => true
  end.

(** Printable ASCII other than the space. *)
Definition is_visible (c : code_unit) : bool := ((33 <=? c) && (c <=? 126))%N.


(** The token the fallback pattern captures when it matches at the very
    start of [s]. *)
Fixpoint token_after (prefixes : list jsstring) (s : jsstring)
  : option jsstring :=
  match prefixes with
  | [] => None
  | p :: others =>
      match strip_prefix p s with
      | Some rest =>
          if 6 <=? run_length is_id_char rest
          then Some (firstn (run_length is_id_char rest) rest)
          else token_after others s
      | None => token_after others s
      end
  end.

(** The words of a text: its maximal runs of code units that are not white
    space, in order.  [cur] holds the word being read, reversed. *)
Fixpoint words_from (cur : jsstring) (s : jsstring) : list jsstring :=
  match s with
  | [] => if nonempty cur then [rev cur] else []
  | c :: rest =>
      if is_space c
      then (if nonempty cur then rev cur :: words_from [] rest
            else words_from [] rest)
      else words_from (c :: cur) rest
  end.

Definition words (s : jsstring) : list jsstring := words_from [] s.

(** A word: a non-empty run of code units that are not white space. *)
Definition is_word (w : jsstring) : Prop :=
  nonempty w = true /\ forallb (fun c => negb (is_space c)) w = true.

(** A link as it is often pasted, without its scheme. *)
Definition pasted_link (shape : url_shape) (id : jsstring) : jsstring :=
  shape_host shape ++ shape_path shape id ++ shape_query shape id.

(** The answers of the handler that carry an error message. *)
Definition error_answer (code : nat) (message : string) : http_response :=
  {| status := code; json := ErrorJson (lit message) |}.

(** The Generation Request the handler builds from a body and the fetched
    segments. *)
Definition request_of (b : body) (segs : list segment) : GenerationRequest :=
  {| transcript := fst (prepareTranscript segs);
     segments := segs;
     stylePreset := body_stylePreset b;
     styleDetail := body_styleDetail b;
     length := body_length b;
     language := body_language b;
     truncated := snd (prepareTranscript segs) |}.

(** [String] converts every style field and the length choice of the body. *)
Definition fields_stringifiable (b : body) : bool :=
  stringifiable (body_stylePreset b) && stringifiable (body_styleDetail b)
  && stringifiable (body_language b) && stringifiable (body_length b).


(** The browser's [fetch] reaches the handler in world [w]. *)
Definition connected (br : Browser) (w : World) : Prop :=
  forall b resp log',
    api_generate w b [] = (Ok resp, log') ->
    fetch br b = Responds (response_ok (status resp)) (json_of (json resp)).

Definition mode_label (mode : jsstring) : jsstring :=
  if JS.eqb mode (lit "openai") then lit "Generation: OpenAI"
  else lit "Generation: Rule-based (no API key detected)".

(** The page a finished request leaves: the controls of [pg], the button
    enabled again, and the given status and outputs. *)
Definition settled (pg : Page) (status : jsstring) (isError : bool)
  (transcript article label : jsstring) (noteHidden : bool) : Page :=
  {| urlInput_value := urlInput_value pg;
     stylePresetInput_value := stylePresetInput_value pg;
     styleDetailInput_value := styleDetailInput_value pg;
     lengthInput_value := lengthInput_value pg;
     languageInput_value := languageInput_value pg;
     statusEl_textContent := status;
     statusEl_error := isError;
     transcriptEl_textContent := transcript;
     articleEl_textContent := article;
     modeEl_textContent := label;
     truncationNote_hidden := noteHidden;
     submitBtn_disabled := false;
     submitBtn_textContent := lit "Generate article" |}.

(** The value of an own property of a parsed object. *)
Definition property (key : string) (props : list (jsstring * jsval)) : jsval :=
  match find (fun kv => JS.eqb (fst kv) (lit key)) props with
  | Some kv => snd kv
  | None => JUndefined
  end.

(** A browser without network, and a filled-in page that shows the results
    of an earlier run. *)
Definition offline : Browser :=
  {| fetch := fun _ => Fails (lit "Failed to fetch");
     engine_message := fun _ => [];
     writeText := fun _ => false |}.

Definition example_page : Page :=
  {| urlInput_value := lit " https://youtu.be/abc123xy ";
     stylePresetInput_value := lit "casual";
     styleDetailInput_value := [];
     lengthInput_value := lit "short";
     languageInput_value := lit "English";
     statusEl_textContent := defaultStatus;
     statusEl_error := false;
     transcriptEl_textContent := lit "an earlier transcript";
     articleEl_textContent := lit "an earlier article";
     modeEl_textContent := lit "Generation: OpenAI";
     truncationNote_hidden := false;
     submitBtn_disabled := false;
     submitBtn_textContent := lit "Generate article" |}.

(** * Properties *)

Unset Implicit Arguments.

(** ** Strings *)

Lemma trimEnd_rev (s : jsstring) : trimEnd s = rev (trimStart (rev s)).
Proof. unfold trimEnd. rewrite <- !rev_alt. reflexivity. Qed.

Lemma collapse_from_length (b : bool) (s : jsstring) :
  List.length (collapse_from b s) <= List.length s.
Proof.
  revert b; induction s as [|c s IH]; intros b; simpl; [lia|].
  destruct (is_space c).
  - destruct b; simpl; specialize (IH true); lia.
  - simpl; specialize (IH false); lia.
Qed.

Lemma no_runs_collapse_from (b : bool) (s : jsstring) :
  no_runs b (collapse_from b s) = true.
Proof.
  revert b; induction s as [|c s IH]; intros b; simpl; [reflexivity|].
  destruct (is_space c) eqn:Hc.
  - destruct b; [apply IH|].
    simpl. apply IH.
  - simpl. rewrite Hc. apply IH.
Qed.

Lemma trimStart_split (s : jsstring) :
  exists ws, s = ws ++ trimStart s /\ blank ws = true.
Proof.
  induction s as [|c s [ws [E B]]]; simpl.
  - exists []; split; reflexivity.
  - destruct (is_space c) eqn:Hc.
    + exists (c :: ws); simpl; rewrite Hc, B; split; [congruence|reflexivity].
    + exists []; split; reflexivity.
Qed.

Lemma trimStart_length (s : jsstring) :
  List.length (trimStart s) <= List.length s.
Proof.
  destruct (trimStart_split s) as [ws [E _]].
  rewrite E at 2. rewrite length_app. lia.
Qed.

Lemma trimStart_head (s : jsstring) : starts_with_space (trimStart s) = false.
Proof.
  induction s as [|c s IH]; simpl; [reflexivity|].
  destruct (is_space c) eqn:Hc; [exact IH|simpl; exact Hc].
Qed.

Lemma trimStart_fixed (s : jsstring) :
  starts_with_space s = false -> trimStart s = s.
Proof. destruct s as [|c s]; simpl; [reflexivity|intros ->; reflexivity]. Qed.

Lemma trimEnd_split (s : jsstring) :
  exists ws, s = trimEnd s ++ ws /\ blank ws = true.
Proof.
  rewrite trimEnd_rev. destruct (trimStart_split (rev s)) as [ws [E B]].
  exists (rev ws); split.
  - rewrite <- rev_app_distr, <- E, rev_involutive. reflexivity.
  - unfold blank in *. rewrite forallb_forall in *.
    intros x Hx. apply B. apply in_rev. exact Hx.
Qed.

Lemma trimEnd_length (s : jsstring) :
  List.length (trimEnd s) <= List.length s.
Proof.
  rewrite trimEnd_rev, length_rev, <- (length_rev s). apply trimStart_length.
Qed.

Lemma trim_length (s : jsstring) : List.length (trim s) <= List.length s.
Proof.
  unfold trim. pose proof (trimEnd_length (trimStart s)).
  pose proof (trimStart_length s). lia.
Qed.

Lemma no_runs_weaken (b : bool) (s : jsstring) :
  no_runs true s = true -> no_runs b s = true.
Proof.
  destruct b; [trivial|]. destruct s as [|c s]; simpl; [trivial|].
  destruct (is_space c); [|trivial]. rewrite andb_false_r. discriminate.
Qed.

Lemma no_runs_prefix (b : bool) (x y : jsstring) :
  no_runs b (x ++ y) = true -> no_runs b x = true.
Proof.
  revert b; induction x as [|c x IH]; intros b; simpl; [reflexivity|].
  destruct (is_space c).
  - rewrite !andb_true_iff. intros [H1 H2]. split; [exact H1|]. apply IH, H2.
  - apply IH.
Qed.

Lemma no_runs_trimStart (b : bool) (s : jsstring) :
  no_runs b s = true -> no_runs true (trimStart s) = true.
Proof.
  revert b; induction s as [|c s IH]; intros b; simpl; [reflexivity|].
  destruct (is_space c) eqn:Hc.
  - rewrite !andb_true_iff. intros [_ H]. apply (IH true), H.
  - simpl. rewrite Hc. trivial.
Qed.

Lemma no_runs_head (s : jsstring) :
  no_runs true s = true -> starts_with_space s = false.
Proof.
  destruct s as [|c s]; simpl; [reflexivity|].
  destruct (is_space c); [|reflexivity].
  rewrite andb_false_r. discriminate.
Qed.

Lemma trimEnd_tail (s : jsstring) : starts_with_space (rev (trimEnd s)) = false.
Proof. rewrite trimEnd_rev, rev_involutive. apply trimStart_head. Qed.

(** [trim] after [replace(/\s+/g, " ")] leaves whitespace-normalized text. *)
Lemma trim_replace_normal (s : jsstring) :
  whitespace_normal (trim (replace_spaces s)) = true.
Proof.
  unfold whitespace_normal, trim. rewrite trimEnd_tail, andb_true_r.
  destruct (trimEnd_split (trimStart (replace_spaces s))) as [ws [E _]].
  apply (no_runs_prefix true _ ws). rewrite <- E.
  apply (no_runs_trimStart false). apply no_runs_collapse_from.
Qed.

Lemma normal_no_newline (s : jsstring) :
  no_runs true s = true -> no_newline s = true.
Proof.
  generalize true at 1. induction s as [|c s IH]; intros b; simpl; [reflexivity|].
  destruct (is_space c) eqn:Hc.
  - rewrite !andb_true_iff. intros [[Hsp _] H].
    apply N.eqb_eq in Hsp. subst c. split; [reflexivity|]. apply (IH true), H.
  - intros H. rewrite (IH false H), andb_true_r.
    destruct (N.eqb_spec c LF) as [->|]; [discriminate Hc|reflexivity].
Qed.

Lemma slice_from_zero {A} (x : list A) (n : nat) : slice x 0 n = firstn n x.
Proof. unfold slice. simpl. rewrite Nat.sub_0_r. reflexivity. Qed.

(** ** C1: truncation of the transcript *)

(** C1 (as amended): the handler compares the length of the NORMALIZED text
    with the limit.  When that length exceeds 12000 the transcript sent back
    is the first 12000 code units of the normalized text followed by the
    marker [" ..."], 12004 code units in all, and [truncated] is true;
    otherwise [truncated] is false and the normalized text is sent back
    unchanged. *)
Theorem prepareTranscript_by_normalized_length (segs : list segment) :
  let normalized := normalizeTranscript segs in
  (MAX_TRANSCRIPT_CHARS < List.length normalized ->
     prepareTranscript segs
       = (firstn MAX_TRANSCRIPT_CHARS normalized ++ lit " ...", true)
     /\ List.length (fst (prepareTranscript segs)) = MAX_TRANSCRIPT_CHARS + 4)
  /\ (List.length normalized <= MAX_TRANSCRIPT_CHARS ->
     prepareTranscript segs = (normalized, false)).
Proof.
  intros normalized. unfold prepareTranscript. fold normalized.
  split; intros H.
  - apply Nat.ltb_lt in H. rewrite H, slice_from_zero.
    split; [reflexivity|]. apply Nat.ltb_lt in H.
    cbn [fst]. rewrite length_app, firstn_length_le by lia. reflexivity.
  - apply Nat.ltb_ge in H. rewrite H. reflexivity.
Qed.

(** Both branches of C1 occur: a segment of 12001 letters is truncated, a
    short one is not. *)
Lemma prepareTranscript_by_normalized_length_witness :
  (snd (prepareTranscript [seg (repeat 97%N 12001)]) = true
   /\ List.length (fst (prepareTranscript [seg (repeat 97%N 12001)]))
      = MAX_TRANSCRIPT_CHARS + 4)
  /\ prepareTranscript [seg (lit " hello  world ")] = (lit "hello world", false).
Proof.
  split.
  - destruct (prepareTranscript_by_normalized_length [seg (repeat 97%N 12001)])
      as [Hlong _].
    assert (H : MAX_TRANSCRIPT_CHARS
                < List.length (normalizeTranscript [seg (repeat 97%N 12001)]))
      by (apply Nat.ltb_lt; vm_compute; reflexivity).
    destruct (Hlong H) as [E L]. split; [|exact L].
    exact (f_equal snd E).
  - destruct (prepareTranscript_by_normalized_length [seg (lit " hello  world ")])
      as [_ Hshort].
    refine (eq_trans (Hshort _) _).
    + apply Nat.leb_le; vm_compute; reflexivity.
    + vm_compute; reflexivity.
Defined.

(** C1 as stated fails in both directions, because joining adds separators
    and normalizing removes white space: a single segment of 12001 spaces
    has more than 12000 code units of text and is not truncated, and 6001
    one-letter segments have 6001 code units of text and are truncated. *)
Lemma truncation_not_by_segment_text_length :
  (MAX_TRANSCRIPT_CHARS <? total_text_length [seg (repeat SP 12001)]) = true
  /\ prepareTranscript [seg (repeat SP 12001)] = ([], false)
  /\ (total_text_length (repeat (seg (lit "a")) 6001) <=? MAX_TRANSCRIPT_CHARS) = true
  /\ snd (prepareTranscript (repeat (seg (lit "a")) 6001)) = true.
Proof.
  split; [|split; [|split]]; vm_compute; reflexivity.
Qed.

(** ** C7: the style descriptor *)

(** C7: for string inputs of any length, each field is whitespace-normalized
    and then cut to its cap: the first 240 code units of the preset, the
    first 500 of the detail, the first 40 of the language, a field within
    its cap being left whole; the call returns (it does not throw) the
    non-empty clamped parts joined with [" | "], the language part being
    present only when the clamped language is neither empty nor ["auto"];
    every part is within its cap. *)
Theorem buildStyleDescriptor_clamps (p d l : jsstring) :
  let P := firstn 240 (trim (replace_spaces p)) in
  let D := firstn 500 (trim (replace_spaces d)) in
  let L := firstn 40 (trim (replace_spaces l)) in
  clampText (JStr p) STYLE_LIMIT = Ok P
  /\ clampText (JStr d) DETAIL_LIMIT = Ok D
  /\ clampText (JStr l) 40 = Ok L
  /\ buildStyleDescriptor (JStr p) (JStr d) (JStr l)
     = Ok (join (lit " | ")
             (filter nonempty
                [P; D;
                 if JS.eqb L (lit "auto") then []
                 else if nonempty L then lit "Output language: " ++ L
                 else []]))
  /\ (List.length P <= 240 /\ List.length D <= 500 /\ List.length L <= 40)
  /\ (List.length (trim (replace_spaces p)) <= 240 ->
      P = trim (replace_spaces p))
  /\ (List.length (trim (replace_spaces d)) <= 500 ->
      D = trim (replace_spaces d))
  /\ (List.length (trim (replace_spaces l)) <= 40 ->
      L = trim (replace_spaces l))
  /\ (whitespace_normal (trim (replace_spaces p)) = true
      /\ whitespace_normal (trim (replace_spaces d)) = true
      /\ whitespace_normal (trim (replace_spaces l)) = true).
Proof.
  intros P D L.
  assert (clamp : forall s n,
            clampText (JStr s) n = Ok (firstn n (trim (replace_spaces s)))).
  { intros s n. unfold clampText. destruct s as [|c s]; simpl truthy.
    - simpl negb. cbv iota. destruct n; reflexivity.
    - cbn [negb ToString rbind nonempty]. rewrite slice_from_zero. reflexivity. }
  split; [apply clamp|]. split; [apply clamp|]. split; [apply clamp|].
  split; [|split; [|split; [|split; [|split]]]].
  - unfold buildStyleDescriptor. rewrite !clamp. cbn [rbind].
    change (firstn STYLE_LIMIT (trim (replace_spaces p))) with P.
    change (firstn DETAIL_LIMIT (trim (replace_spaces d))) with D.
    fold L.
    f_equal. f_equal.
    destruct (JS.eqb L (lit "auto")) eqn:Hauto.
    + rewrite andb_false_r. cbn [negb filter nonempty].
      destruct (nonempty P), (nonempty D); reflexivity.
    + rewrite andb_true_r. cbn [negb filter].
      destruct (nonempty L) eqn:HL.
      * destruct (nonempty P), (nonempty D); reflexivity.
      * destruct (nonempty P), (nonempty D); reflexivity.
  - unfold P, D, L.
    split; [|split]; apply firstn_le_length.
  - intros H. apply firstn_all2, H.
  - intros H. apply firstn_all2, H.
  - intros H. apply firstn_all2, H.
  - split; [|split]; apply trim_replace_normal.
Qed.

(** A detail of 600 code units is cut to 500 beside a ragged preset and a
    language that is kept; a preset of 300 is cut to 240 and a language of
    50 to 40. *)
Lemma buildStyleDescriptor_clamps_witness :
  buildStyleDescriptor (JStr (lit "  formal   tone "))
    (JStr (repeat 100%N 600)) (JStr (lit " French "))
  = Ok (lit "formal tone | " ++ repeat 100%N 500
        ++ lit " | Output language: French")
  /\ buildStyleDescriptor (JStr (repeat 112%N 300))
       (JStr (lit "with  examples")) (JStr (repeat 108%N 50))
     = Ok (repeat 112%N 240 ++ lit " | with examples | Output language: "
           ++ repeat 108%N 40).
Proof.
  split.
  - refine (eq_trans
              (proj1 (proj2 (proj2 (proj2
                 (buildStyleDescriptor_clamps (lit "  formal   tone ")
                    (repeat 100%N 600) (lit " French ")))))) _).
    vm_compute. reflexivity.
  - refine (eq_trans
              (proj1 (proj2 (proj2 (proj2
                 (buildStyleDescriptor_clamps (repeat 112%N 300)
                    (lit "with  examples") (repeat 108%N 50)))))) _).
    vm_compute. reflexivity.
Defined.

(** ** C8: the title *)

Lemma find_segment_long (segs : list segment) :
  find_segment
    (fun sg =>
       if text_truthy (text sg)
       then (n <- get_length (text sg) ;; Ok (5 <? n))
       else Ok false)
    segs
  = Ok (List.find (fun sg => 5 <? text_length sg) segs).
Proof.
  induction segs as [|sg segs IH]; [reflexivity|].
  cbn [find_segment List.find]. unfold text_length at 1.
  destruct (text sg) as [| |[|c s]]; cbn -[Nat.ltb]; try exact IH.
  destruct (5 <? S (List.length s)); [reflexivity|exact IH].
Qed.



Lemma buildTitle_find (segs : list segment) :
  buildTitle segs
  = Ok (match List.find (fun sg => 5 <? text_length sg) segs with
        | Some sg => title_of (join_item (text sg))
        | None => default_title
        end).
Proof.
  unfold buildTitle. rewrite find_segment_long. cbn [rbind].
  destruct (List.find _ segs) as [sg|] eqn:Hfind.
  - apply find_some in Hfind. destruct Hfind as [_ Hlong].
    unfold text_length in Hlong. unfold title_of.
    destruct (text sg) as [| |[|c s]]; try discriminate Hlong.
    cbn [text_truthy nonempty as_string rbind join_item].
    destruct (nonempty (trim (replace_spaces (c :: s)))); cbn [negb].
    + rewrite slice_from_zero.
      destruct (70 <? List.length (trim (replace_spaces (c :: s)))); reflexivity.
    + reflexivity.
  - reflexivity.
Qed.

Lemma trimEnd_fixed (s : jsstring) :
  starts_with_space (rev s) = false -> trimEnd s = s.
Proof.
  intros H. rewrite trimEnd_rev, (trimStart_fixed _ H). apply rev_involutive.
Qed.

Lemma trimEnd_snoc_space (y : jsstring) (z : code_unit) :
  is_space z = true -> trimEnd (y ++ [z]) = trimEnd y.
Proof.
  intros Hz. rewrite !trimEnd_rev, rev_app_distr. simpl. rewrite Hz. reflexivity.
Qed.

Lemma no_runs_before_space (b : bool) (y : jsstring) (z : code_unit) :
  no_runs b (y ++ [z]) = true -> is_space z = true ->
  starts_with_space (rev y) = false.
Proof.
  revert b; induction y as [|c y IH]; intros b H Hz; [reflexivity|].
  simpl in H. simpl rev.
  destruct y as [|c' y].
  - simpl in *. destruct (is_space c); [|reflexivity].
    rewrite Hz in H. rewrite !andb_false_r in H. discriminate.
  - assert (Hrest : exists b', no_runs b' ((c' :: y) ++ [z]) = true).
    { destruct (is_space c).
      - apply andb_true_iff in H. destruct H as [_ H]. exists true; exact H.
      - exists false; exact H. }
    destruct Hrest as [b' Hrest]. specialize (IH b' Hrest Hz).
    destruct (rev (c' :: y)) as [|r rs] eqn:Hrev.
    + apply (f_equal (@List.length _)) in Hrev. rewrite length_rev in Hrev.
      discriminate.
    + exact IH.
Qed.

Lemma firstn_snoc {A} (n : nat) (l : list A) :
  n < List.length l -> exists z, firstn (S n) l = firstn n l ++ [z].
Proof.
  revert l; induction n as [|n IH]; intros [|a l] H; simpl in H; try lia.
  - exists a; reflexivity.
  - destruct (IH l) as [z Hz]; [lia|]. exists z.
    change (a :: firstn (S n) l = a :: firstn n l ++ [z]). rewrite Hz. reflexivity.
Qed.

(** Cutting whitespace-normalized text and trimming the cut again takes at
    most one space off its end. *)
Lemma trim_cut_normal (n : nat) (s : jsstring) :
  no_runs true s = true -> n < List.length s ->
  trim (firstn (S n) s) = firstn (S n) s \/ trim (firstn (S n) s) = firstn n s.
Proof.
  intros Hs Hn.
  assert (Hcut : forall m, no_runs true (firstn m s) = true).
  { intros m. apply (no_runs_prefix true _ (skipn m s)).
    rewrite firstn_skipn. exact Hs. }
  unfold trim. rewrite (trimStart_fixed _ (no_runs_head _ (Hcut (S n)))).
  destruct (firstn_snoc n s Hn) as [z Hz].
  destruct (is_space z) eqn:Hsp.
  - right. rewrite Hz, (trimEnd_snoc_space _ _ Hsp).
    apply trimEnd_fixed.
    apply (no_runs_before_space true _ z); [rewrite <- Hz; apply Hcut|exact Hsp].
  - left. apply trimEnd_fixed. rewrite Hz, rev_app_distr. simpl. exact Hsp.
Qed.



(** ** C4: the key-point sampler *)

Lemma ceil_div_step (a k : nat) :
  0 < a -> ceil_div a (S k) = S (ceil_div (a - S k) (S k)).
Proof.
  intros Ha. unfold ceil_div.
  destruct (Nat.le_gt_cases (S k) a) as [H|H].
  - replace (a + S k - 1) with ((a - S k + S k - 1) + 1 * S k) by lia.
    rewrite Nat.div_add by lia. lia.
  - replace (a - S k) with 0 by lia.
    rewrite (Nat.div_small (0 + S k - 1)) by lia.
    replace (a + S k - 1) with ((a - 1) + 1 * S k) by lia.
    rewrite Nat.div_add by lia. rewrite Nat.div_small by lia. reflexivity.
Qed.

Lemma samplePoints_loop_spec (segs : list segment) (count k i : nat)
  (points : list jsstring) :
  samplePoints_loop segs count k i points
  = points
    ++ firstn (count - List.length points)
         (filter nonempty
            (List.map (window segs)
               (List.map (fun j => i + j * S k)
                  (seq 0 (ceil_div (List.length segs - i) (S k)))))).
Proof.
  funelim (samplePoints_loop segs count k i points);
    match goal with
    | E : lt_dec _ (List.length ?s) = _ |- _ => rename s into sgs
    end.
  - replace (List.length sgs - i) with 0 by lia.
    unfold ceil_div. rewrite Nat.div_small by lia. simpl.
    rewrite firstn_nil, app_nil_r. reflexivity.
  - rewrite H. clear H Heqcall Heq0.
    rewrite (ceil_div_step (List.length sgs - i) k) by lia.
    replace (List.length sgs - i - S k)
      with (List.length sgs - (i + S k)) by lia.
    cbn [seq List.map filter]. rewrite <- seq_shift, !map_map.
    rewrite Nat.add_0_r. fold (window sgs i).
    rewrite (map_ext (fun x => window sgs (i + S x * S k))
               (fun x => window sgs (i + S k + x * S k)))
      by (intros x; f_equal; lia).
    apply Nat.ltb_lt in Heq.
    destruct (nonempty (window sgs i)).
    + rewrite length_app. simpl List.length.
      replace (count - List.length points)
        with (S (count - (List.length points + 1))) by lia.
      cbn [firstn]. rewrite <- app_assoc. reflexivity.
    + reflexivity.
  - apply Nat.ltb_ge in Heq. replace (count - List.length points) with 0 by lia.
    simpl. rewrite app_nil_r. reflexivity.
Qed.

Lemma samplePoints_spec (segs : list segment) (count : nat) :
  samplePoints segs count
  = firstn count
      (filter nonempty
         (List.map (window segs)
            (window_starts (List.length segs)
               (Nat.max 1 (List.length segs / count))))).
Proof.
  unfold samplePoints, window_starts.
  destruct (List.length segs =? 0) eqn:Hn.
  - apply Nat.eqb_eq in Hn. rewrite Hn, Nat.Div0.div_0_l.
    cbn. rewrite firstn_nil. reflexivity.
  - rewrite samplePoints_loop_spec. cbn [app List.length].
    rewrite !Nat.sub_0_r.
    assert (Hs : S (Nat.pred (Nat.max 1 (List.length segs / count)))
                 = Nat.max 1 (List.length segs / count)) by lia.
    rewrite Hs. reflexivity.
Qed.

Lemma window_starts_below (n step : nat) :
  0 < step -> Forall (fun i => i < n) (window_starts n step).
Proof.
  intros Hstep. unfold window_starts, ceil_div.
  apply Forall_forall. intros i Hi.
  apply in_map_iff in Hi. destruct Hi as [j [<- Hj]].
  apply in_seq in Hj.
  pose proof (Nat.Div0.mul_div_le (n + step - 1) step) as Hd.
  nia.
Qed.

Lemma window_starts_length_min (n : nat) :
  Nat.min 5 (List.length (window_starts n (Nat.max 1 (n / 5)))) = Nat.min 5 n.
Proof.
  unfold window_starts. rewrite length_map, length_seq. unfold ceil_div.
  destruct (Nat.lt_ge_cases n 5) as [H|H].
  - rewrite (Nat.div_small n 5) by lia. simpl Nat.max.
    rewrite Nat.div_1_r. lia.
  - assert (1 <= n / 5) by (apply Nat.div_le_lower_bound; lia).
    replace (Nat.max 1 (n / 5)) with (n / 5) by lia.
    assert (5 <= (n + n / 5 - 1) / (n / 5)).
    { apply Nat.div_le_lower_bound; [lia|].
      pose proof (Nat.Div0.mul_div_le n 5). lia. }
    lia.
Qed.

Lemma blank_false_word (s : jsstring) :
  blank s = false -> exists c, In c s /\ is_space c = false.
Proof.
  induction s as [|c s IH]; simpl; [discriminate|].
  destruct (is_space c) eqn:Hc; simpl.
  - intros H. destruct (IH H) as [c' [Hin Hc']]. exists c'; auto.
  - intros _. exists c; auto.
Qed.

Lemma join_keeps (sep : jsstring) (parts : list jsstring) (p : jsstring)
  (c : code_unit) : In p parts -> In c p -> In c (join sep parts).
Proof.
  induction parts as [|q parts IH]; simpl; [tauto|].
  intros [->|Hin] Hc.
  - destruct parts; [exact Hc|]. apply in_or_app. left; exact Hc.
  - destruct parts as [|q' parts]; [destruct Hin|].
    apply in_or_app. right. apply in_or_app. right. apply IH; assumption.
Qed.

Lemma collapse_keeps (b : bool) (s : jsstring) (c : code_unit) :
  In c s -> is_space c = false -> In c (collapse_from b s).
Proof.
  revert b; induction s as [|a s IH]; intros b; simpl; [tauto|].
  intros [->|Hin] Hc.
  - rewrite Hc. left; reflexivity.
  - destruct (is_space a); [destruct b|]; simpl; auto.
Qed.

Lemma trimStart_keeps (s : jsstring) (c : code_unit) :
  In c s -> is_space c = false -> In c (trimStart s).
Proof.
  induction s as [|a s IH]; simpl; [tauto|].
  intros [->|Hin] Hc.
  - rewrite Hc. left; reflexivity.
  - destruct (is_space a); [auto|right; exact Hin].
Qed.

Lemma trim_keeps (s : jsstring) (c : code_unit) :
  In c s -> is_space c = false -> In c (trim s).
Proof.
  intros Hin Hc. unfold trim. rewrite trimEnd_rev. apply in_rev.
  rewrite rev_involutive. apply trimStart_keeps; [|exact Hc].
  apply in_rev. rewrite rev_involutive.
  apply trimStart_keeps; assumption.
Qed.

Lemma segmentsToText_word (segs : list segment) (sg : segment) :
  In sg segs -> has_word sg = true -> nonempty (segmentsToText segs) = true.
Proof.
  intros Hin Hw. unfold has_word in Hw. apply negb_true_iff in Hw.
  destruct (blank_false_word _ Hw) as [c [Hc Hsp]].
  assert (In c (segmentsToText segs)).
  { unfold segmentsToText. apply trim_keeps; [|exact Hsp].
    apply collapse_keeps; [|exact Hsp].
    apply (join_keeps _ _ (join_item (text sg))); [|exact Hc].
    rewrite map_map. apply in_map_iff. exists sg; auto. }
  destruct (segmentsToText segs); [contradiction|reflexivity].
Qed.

Lemma window_word (segs : list segment) (i : nat) :
  Forall (fun sg => has_word sg = true) segs -> i < List.length segs ->
  nonempty (window segs i) = true.
Proof.
  intros Hall Hi. unfold window, slice.
  replace (i + 3 - i) with 3 by lia.
  destruct (skipn i segs) as [|sg rest] eqn:Hskip.
  - apply (f_equal (@List.length _)) in Hskip. rewrite length_skipn in Hskip.
    simpl in Hskip. lia.
  - apply (segmentsToText_word _ sg); [left; reflexivity|].
    rewrite Forall_forall in Hall. apply Hall.
    rewrite <- (firstn_skipn i segs), Hskip. apply in_or_app. right. left. reflexivity.
Qed.

Lemma filter_all {A} (p : A -> bool) (l : list A) :
  Forall (fun x => p x = true) l -> filter p l = l.
Proof. induction 1 as [|x l Hx _ IH]; simpl; [|rewrite Hx, IH]; reflexivity. Qed.

(** C4 (as amended): with [n] segments and [step = max 1 (floor (n / 5))],
    the sampler returns the first 5 non-empty windows among those starting
    at [0, step, 2 * step, ...] below [n], each window being the cleaned
    text of the 3 segments from its start; so it returns at most 5 points.
    When every segment's text has a code unit that is not white space it
    returns [min 5 n] points: exactly 5 for 20 segments.  Two segments, of
    any text, give fewer than 5 points, and the call returns. *)
Theorem samplePoints_strided_windows (segs : list segment) :
  let n := List.length segs in
  let step := Nat.max 1 (n / 5) in
  samplePoints segs 5
    = firstn 5 (filter nonempty (List.map (window segs) (window_starts n step)))
  /\ Forall (fun i => i < n) (window_starts n step)
  /\ List.length (samplePoints segs 5) <= 5
  /\ (Forall (fun sg => has_word sg = true) segs ->
      List.length (samplePoints segs 5) = Nat.min 5 n)
  /\ (Forall (fun sg => has_word sg = true) segs -> n = 20 ->
      List.length (samplePoints segs 5) = 5)
  /\ (n = 2 -> List.length (samplePoints segs 5) < 5).
Proof.
  intros n step.
  assert (Hspec := samplePoints_spec segs 5). fold n step in Hspec.
  assert (Hmin : Forall (fun sg => has_word sg = true) segs ->
                 List.length (samplePoints segs 5) = Nat.min 5 n).
  { intros Hall. rewrite Hspec, filter_all.
    - rewrite length_firstn, length_map. apply window_starts_length_min.
    - apply Forall_forall. intros w Hw. apply in_map_iff in Hw.
      destruct Hw as [i [<- Hi]]. apply window_word; [exact Hall|].
      assert (Hpos : 0 < step) by (pose proof (Nat.le_max_l 1 (n / 5)); subst step; lia).
      pose proof (window_starts_below n step Hpos) as Hb.
      rewrite Forall_forall in Hb. apply Hb, Hi. }
  assert (Hpos : 0 < step)
    by (pose proof (Nat.le_max_l 1 (n / 5)); subst step; lia).
  split; [exact Hspec|]. split; [exact (window_starts_below n step Hpos)|].
  split; [|split; [exact Hmin|split]].
  - rewrite Hspec, length_firstn. lia.
  - intros Hall Hn. rewrite (Hmin Hall), Hn. reflexivity.
  - intros Hn. rewrite Hspec, length_firstn.
    pose proof (filter_length_le nonempty
                  (List.map (window segs) (window_starts n step))) as Hf.
    rewrite length_map in Hf.
    assert (Hw : List.length (window_starts n step) = 2).
    { unfold window_starts. rewrite length_map, length_seq.
      subst step. rewrite Hn. reflexivity. }
    lia.
Qed.

(** C4 as stated fails for texts that are not empty but hold white space
    only: 20 segments [" "] give no point at all. *)
Lemma samplePoints_blank_segments :
  forallb (fun sg => nonempty (join_item (text sg))) (repeat (seg (lit " ")) 20)
    = true
  /\ List.length (repeat (seg (lit " ")) 20) = 20
  /\ samplePoints (repeat (seg (lit " ")) 20) 5 = [].
Proof. split; [|split]; vm_compute; reflexivity. Qed.

(** The scenarios of the specification: 20 segments ["word"] give exactly 5
    points, 2 give fewer. *)
Lemma samplePoints_strided_windows_witness :
  List.length (samplePoints (repeat (seg (lit "word")) 20) 5) = 5
  /\ List.length (samplePoints (repeat (seg (lit "word")) 2) 5) < 5.
Proof.
  split.
  - destruct (samplePoints_strided_windows (repeat (seg (lit "word")) 20))
      as (_ & _ & _ & _ & H20 & _).
    apply H20; [|reflexivity].
    apply Forall_forall. intros sg Hin. apply repeat_spec in Hin. subst sg.
    reflexivity.
  - destruct (samplePoints_strided_windows (repeat (seg (lit "word")) 2))
      as (_ & _ & _ & _ & _ & H2).
    apply H2. reflexivity.
Defined.

(** ** C3: the sections of the rule-based article *)







Lemma no_newline_app (a b : jsstring) :
  no_newline a = true -> no_newline b = true -> no_newline (a ++ b) = true.
Proof. intros Ha Hb. unfold no_newline. rewrite forallb_app. apply andb_true_iff; auto. Qed.

Lemma no_newline_part (a b : jsstring) :
  no_newline (a ++ b) = true -> no_newline a = true /\ no_newline b = true.
Proof. unfold no_newline. rewrite forallb_app. apply andb_true_iff. Qed.

Lemma no_newline_firstn (n : nat) (s : jsstring) :
  no_newline s = true -> no_newline (firstn n s) = true.
Proof.
  intros H. rewrite <- (firstn_skipn n s) in H. apply (no_newline_part _ _ H).
Qed.

Lemma no_newline_trim (s : jsstring) :
  no_newline s = true -> no_newline (trim s) = true.
Proof.
  intros H. unfold trim.
  destruct (trimStart_split s) as [ws [E _]]. rewrite E in H.
  apply no_newline_part in H. destruct H as [_ H].
  destruct (trimEnd_split (trimStart s)) as [ws' [E' _]]. rewrite E' in H.
  apply (no_newline_part _ _ H).
Qed.

Lemma cleaned_no_newline (s : jsstring) :
  no_newline (trim (replace_spaces s)) = true.
Proof.
  apply normal_no_newline.
  pose proof (trim_replace_normal s) as H. unfold whitespace_normal in H.
  apply andb_true_iff in H. apply H.
Qed.

Lemma title_of_no_newline (seed : jsstring) : no_newline (title_of seed) = true.
Proof.
  unfold title_of.
  destruct (nonempty (trim (replace_spaces seed))); [|reflexivity].
  destruct (70 <? _); [|apply cleaned_no_newline].
  apply no_newline_app; [|reflexivity].
  apply no_newline_trim, no_newline_firstn, cleaned_no_newline.
Qed.

Lemma buildTitle_returns (segs : list segment) :
  exists title, buildTitle segs = Ok title /\ no_newline title = true.
Proof.
  rewrite buildTitle_find. eexists; split; [reflexivity|].
  destruct (List.find _ segs); [apply title_of_no_newline|reflexivity].
Qed.





(** ** C10: missing texts and values that are not strings *)

Lemma texts_or_empty (segs : list segment) :
  List.map join_item (List.map text (List.map text_or_empty segs))
  = List.map join_item (List.map text segs).
Proof. rewrite !map_map. apply map_ext. intros sg. reflexivity. Qed.

Lemma segmentsToText_or_empty (segs : list segment) :
  segmentsToText (List.map text_or_empty segs) = segmentsToText segs.
Proof. unfold segmentsToText. rewrite texts_or_empty. reflexivity. Qed.

Lemma window_or_empty (segs : list segment) (i : nat) :
  window (List.map text_or_empty segs) i = window segs i.
Proof.
  unfold window, slice. rewrite skipn_map, firstn_map.
  apply segmentsToText_or_empty.
Qed.

Lemma samplePoints_or_empty (segs : list segment) (count : nat) :
  samplePoints (List.map text_or_empty segs) count = samplePoints segs count.
Proof.
  rewrite !samplePoints_spec, length_map.
  rewrite (map_ext _ _ (window_or_empty segs)). reflexivity.
Qed.

Lemma buildTitle_or_empty (segs : list segment) :
  buildTitle (List.map text_or_empty segs) = buildTitle segs.
Proof.
  rewrite !buildTitle_find. f_equal.
  induction segs as [|sg segs IH]; [reflexivity|].
  simpl. change (text_length (text_or_empty sg)) with (text_length sg).
  destruct (5 <? text_length sg); [reflexivity|exact IH].
Qed.

Lemma ToString_stringifiable :
  forall v, stringifiable v = true -> exists s, ToString v = Ok s.
Proof.
  fix IH 1. intros [| |[|]|t sh|s|items|props]; simpl; intros H;
    try (eexists; reflexivity).
  - induction items as [|x rest IHrest]; [eexists; reflexivity|].
    apply andb_true_iff in H. destruct H as [Hx Hrest].
    destruct (IHrest Hrest) as [b Hb].
    assert (Ha : exists a,
               match x with
               | JUndefined | JNull => Ok []
               | _ => ToString x
               end = Ok a).
    { destruct (IH x Hx) as [a Ha]. clear IH IHrest.
      destruct x; try (exists a; exact Ha); exists []; reflexivity. }
    destruct Ha as [a Ha]. rewrite Ha. cbn [rbind].
    destruct rest as [|y rest']; [eexists; reflexivity|].
    rewrite Hb. eexists; reflexivity.
  - destruct (has_own _ props); [discriminate|eexists; reflexivity].
Qed.

Lemma clampText_returns (v : jsval) (n : nat) :
  stringifiable v = true ->
  exists s, ToString v = Ok s
            /\ clampText v n
               = Ok (if truthy v then firstn n (trim (replace_spaces s)) else []).
Proof.
  intros H. destruct (ToString_stringifiable v H) as [s Hs].
  exists s. split; [exact Hs|]. unfold clampText.
  destruct (truthy v); cbn [negb]; [|reflexivity].
  rewrite Hs. cbn [rbind]. rewrite slice_from_zero. reflexivity.
Qed.

(** C10 (as amended): a missing, [undefined] or [null] segment text is
    read as the empty string by [normalizeTranscript], [segmentsToText],
    [buildTitle] and [samplePoints], and [buildTitle] returns; [clampText]
    maps a falsy value to the empty string and converts, normalizes and
    cuts every other value that [String] can convert: primitives, arrays of
    such values and plain objects without a [toString] property of their
    own; on such values [buildStyleDescriptor] returns as well. *)
Theorem degenerate_inputs (segs : list segment) (count n : nat)
  (v stylePreset styleDetail language : jsval) :
  normalizeTranscript (List.map text_or_empty segs) = normalizeTranscript segs
  /\ segmentsToText (List.map text_or_empty segs) = segmentsToText segs
  /\ (exists title,
        buildTitle segs = Ok title
        /\ buildTitle (List.map text_or_empty segs) = Ok title)
  /\ samplePoints (List.map text_or_empty segs) count = samplePoints segs count
  /\ (truthy v = false -> clampText v n = Ok [])
  /\ (stringifiable v = true ->
      exists s, ToString v = Ok s
                /\ (truthy v = true ->
                    clampText v n = Ok (firstn n (trim (replace_spaces s)))))
  /\ (stringifiable stylePreset = true ->
      stringifiable styleDetail = true ->
      stringifiable language = true ->
      exists descriptor,
        buildStyleDescriptor stylePreset styleDetail language = Ok descriptor).
Proof.
  split; [apply segmentsToText_or_empty|].
  split; [apply segmentsToText_or_empty|].
  split.
  { destruct (buildTitle_returns segs) as [title [Ht _]].
    exists title. rewrite buildTitle_or_empty. split; exact Ht. }
  split; [apply samplePoints_or_empty|].
  split.
  { intros Hv. unfold clampText. rewrite Hv. reflexivity. }
  split.
  { intros Hv. destruct (clampText_returns v n Hv) as [s [Hs Hc]].
    exists s. split; [exact Hs|]. intros Ht. rewrite Hc, Ht. reflexivity. }
  intros Hp Hd Hl. unfold buildStyleDescriptor.
  destruct (clampText_returns stylePreset STYLE_LIMIT Hp) as [? [_ ->]].
  destruct (clampText_returns styleDetail DETAIL_LIMIT Hd) as [? [_ ->]].
  destruct (clampText_returns language 40 Hl) as [? [_ ->]].
  cbn [rbind]. eexists; reflexivity.
Qed.

(** An array with a number, a [null] and a string is converted and
    cleaned. *)
Lemma degenerate_inputs_witness :
  exists s,
    ToString (JArr [JNum true (lit "1"); JNull; JStr (lit "a  b")]) = Ok s
    /\ (truthy (JArr [JNum true (lit "1"); JNull; JStr (lit "a  b")]) = true ->
        clampText (JArr [JNum true (lit "1"); JNull; JStr (lit "a  b")]) 240
        = Ok (firstn 240 (trim (replace_spaces s)))).
Proof.
  apply (degenerate_inputs [] 5 240
           (JArr [JNum true (lit "1"); JNull; JStr (lit "a  b")])
           JNull JNull JNull).
  reflexivity.
Defined.

(** C10 as stated fails for objects: a request field [{"toString": 1}] makes
    [String] throw a TypeError, so [clampText] and [buildStyleDescriptor]
    throw, and the handler answers 500. *)
Lemma clampText_throws_on_own_toString :
  clampText (JObj [(lit "toString", JNum true (lit "1"))]) STYLE_LIMIT
    = Throw TypeError
  /\ buildStyleDescriptor (JObj [(lit "toString", JNum true (lit "1"))])
       (JStr []) (JStr [])
     = Throw TypeError
  /\ fst (api_generate world_without_key
            {| url := JStr (lit "https://youtu.be/abc123xy");
               body_stylePreset := JObj [(lit "toString", JNum true (lit "1"))];
               body_styleDetail := JStr [];
               body_length := JStr (lit "short");
               body_language := JStr (lit "auto") |} [])
     = Ok {| status := 500;
             json := ErrorJson (lit "Failed to generate article.") |}.
Proof. split; [|split]; vm_compute; reflexivity. Qed.

(** ** C2 and C9: the dispatcher *)

Lemma no_newline_join (sep : jsstring) (parts : list jsstring) :
  no_newline sep = true -> Forall (fun p => no_newline p = true) parts ->
  no_newline (join sep parts) = true.
Proof.
  intros Hsep. induction 1 as [|p parts Hp _ IH]; [reflexivity|].
  destruct parts as [|q parts]; [exact Hp|].
  change (no_newline (p ++ sep ++ join sep (q :: parts)) = true).
  apply no_newline_app; [exact Hp|]. apply no_newline_app; assumption.
Qed.

Lemma clampText_no_newline (v : jsval) (n : nat) (s : jsstring) :
  clampText v n = Ok s -> no_newline s = true.
Proof.
  unfold clampText. destruct (truthy v); cbn [negb].
  - destruct (ToString v) as [t|e]; cbn [rbind]; [|discriminate].
    intros [= <-]. rewrite slice_from_zero.
    apply no_newline_firstn, cleaned_no_newline.
  - intros [= <-]. reflexivity.
Qed.

Lemma buildStyleDescriptor_returns (p d l : jsval) :
  stringifiable p = true -> stringifiable d = true -> stringifiable l = true ->
  exists descriptor,
    buildStyleDescriptor p d l = Ok descriptor
    /\ no_newline descriptor = true.
Proof.
  intros Hp Hd Hl. unfold buildStyleDescriptor.
  destruct (clampText_returns p STYLE_LIMIT Hp) as [? [_ Ep]].
  destruct (clampText_returns d DETAIL_LIMIT Hd) as [? [_ Ed]].
  destruct (clampText_returns l 40 Hl) as [? [_ El]].
  pose proof (clampText_no_newline _ _ _ Ep) as Np.
  pose proof (clampText_no_newline _ _ _ Ed) as Nd.
  pose proof (clampText_no_newline _ _ _ El) as Nl.
  rewrite Ep, Ed, El. cbn [rbind]. eexists; split; [reflexivity|].
  apply no_newline_join; [reflexivity|].
  repeat match goal with
         | |- context [if ?b then _ else _] => destruct b
         end;
    repeat first [apply Forall_nil | apply Forall_cons | apply Forall_app; split];
    try assumption; try (apply no_newline_app; [reflexivity|assumption]).
Qed.

Lemma lengthSpecFromChoice_returns (choice : jsval) :
  stringifiable choice = true ->
  exists spec,
    lengthSpecFromChoice choice = Ok spec /\ no_newline spec = true.
Proof.
  intros H. unfold lengthSpecFromChoice.
  assert (Hs : exists s, ToString (if truthy choice then choice else JStr []) = Ok s).
  { destruct (truthy choice); [apply ToString_stringifiable, H|eexists; reflexivity]. }
  destruct Hs as [s ->]. cbn [rbind].
  unfold lengthMap.
  repeat match goal with
         | |- context [JS.eqb ?a ?b] => destruct (JS.eqb a b)
         end; eexists; split; reflexivity.
Qed.

Lemma ruleBasedArticle_returns (segs : list segment) (sd ls : jsstring)
  (trunc : bool) : exists article, ruleBasedArticle segs sd ls trunc = Ok article.
Proof.
  unfold ruleBasedArticle.
  destruct (buildTitle_returns segs) as [title [-> _]].
  cbn [rbind]. eexists; reflexivity.
Qed.

Lemma generateWithOpenAI_run (w : World) (tr sd ls : jsstring) (trunc : bool)
  (log : list event) :
  generateWithOpenAI w tr sd ls trunc log
  = (resp <- responses_create w (openai_request w tr sd ls trunc) ;;
     call_trim (if truthy (output_text resp) then output_text resp else JStr []),
     log ++ [ResponsesCreate (openai_request w tr sd ls trunc)]).
Proof.
  unfold generateWithOpenAI, bind, emit, lift. cbv zeta.
  destruct (responses_create w _); reflexivity.
Qed.

Lemma generateArticle_cases (w : World) (tr : jsstring) (segs : list segment)
  (p d n l : jsstring) (trunc : bool) (log : list event)
  (sd ls fallback_text : jsstring) :
  buildStyleDescriptor (JStr p) (JStr d) (JStr l) = Ok sd ->
  lengthSpecFromChoice (JStr n) = Ok ls ->
  ruleBasedArticle segs sd ls trunc = Ok fallback_text ->
  generateArticle w (typed_request tr segs p d n l trunc) log
  = if env_truthy (OPENAI_API_KEY w)
    then match generateWithOpenAI w tr sd ls trunc log with
         | (Ok [], log1) =>
             (Ok {| article_text := fallback_text; mode := lit "fallback" |}, log1)
         | (Ok text, log1) =>
             (Ok {| article_text := text; mode := lit "openai" |}, log1)
         | (Throw e, log1) =>
             (Ok {| article_text := fallback_text; mode := lit "fallback" |},
              log1 ++ [ConsoleError (lit "OpenAI generation failed:") e])
         end
    else (Ok {| article_text := fallback_text; mode := lit "fallback" |}, log).
Proof.
  intros Hsd Hls Hfb. unfold generateArticle, typed_request.
  cbn [stylePreset styleDetail language length transcript segments truncated].
  rewrite Hsd, Hls. unfold bind at 1 2. unfold lift at 1 2.
  destruct (env_truthy (OPENAI_API_KEY w)).
  - unfold bind at 1. unfold try_catch. unfold bind at 1.
    destruct (generateWithOpenAI w tr sd ls trunc log) as [[[|c t]|e] log1].
    + cbn. rewrite Hfb. reflexivity.
    + cbn. reflexivity.
    + cbn. rewrite Hfb. reflexivity.
  - cbn. rewrite Hfb. reflexivity.
Qed.

Lemma trimStart_blank (s : jsstring) : blank s = true -> trimStart s = [].
Proof.
  induction s as [|c s IH]; simpl; [reflexivity|].
  destruct (is_space c); [exact IH|discriminate].
Qed.

Lemma trim_blank (s : jsstring) : blank s = true -> trim s = [].
Proof. intros H. unfold trim. rewrite (trimStart_blank s H). reflexivity. Qed.

(** C2: for a Generation Request (string style fields and length choice):
    without a configured key the dispatcher returns the rule-based article
    with mode ["fallback"] and calls nothing; with a key the first thing it
    does is the external call, it always returns a result, and when the
    attempt fails, by an exception of the call or of what follows it, or by
    an empty, missing or white-space-only text, the result is the
    rule-based article with mode ["fallback"], the exception being written
    to the error log only. *)
Theorem generateArticle_falls_back (w : World) (tr : jsstring)
  (segs : list segment) (p d n l : jsstring) (trunc : bool)
  (log : list event) :
  exists sd ls fallback_text,
    buildStyleDescriptor (JStr p) (JStr d) (JStr l) = Ok sd
    /\ lengthSpecFromChoice (JStr n) = Ok ls
    /\ ruleBasedArticle segs sd ls trunc = Ok fallback_text
    /\ let req := typed_request tr segs p d n l trunc in
       let fallback :=
         {| article_text := fallback_text; mode := lit "fallback" |} in
       let request := openai_request w tr sd ls trunc in
       let failed := ConsoleError (lit "OpenAI generation failed:") in
       (env_truthy (OPENAI_API_KEY w) = false ->
        generateArticle w req log = (Ok fallback, log))
       /\ (env_truthy (OPENAI_API_KEY w) = true ->
           (exists r tail,
               generateArticle w req log
               = (Ok r, log ++ ResponsesCreate request :: tail))
           /\ (forall e,
                  responses_create w request = Throw e ->
                  generateArticle w req log
                  = (Ok fallback, log ++ [ResponsesCreate request; failed e]))
           /\ (forall resp,
                  responses_create w request = Ok resp ->
                  truthy (output_text resp) = false
                  \/ (exists s, output_text resp = JStr s /\ blank s = true) ->
                  generateArticle w req log
                  = (Ok fallback, log ++ [ResponsesCreate request]))
           /\ (forall e log1,
                  generateWithOpenAI w tr sd ls trunc log = (Throw e, log1) ->
                  generateArticle w req log = (Ok fallback, log1 ++ [failed e]))).
Proof.
  destruct (buildStyleDescriptor_returns (JStr p) (JStr d) (JStr l))
    as [sd [Hsd _]]; try reflexivity.
  destruct (lengthSpecFromChoice_returns (JStr n)) as [ls [Hls _]];
    try reflexivity.
  destruct (ruleBasedArticle_returns segs sd ls trunc) as [fb Hfb].
  exists sd, ls, fb. split; [exact Hsd|]. split; [exact Hls|].
  split; [exact Hfb|]. cbv zeta.
  pose proof (generateArticle_cases w tr segs p d n l trunc log sd ls fb
                Hsd Hls Hfb) as Hcases.
  split; intros Hkey; rewrite Hkey in Hcases; [exact Hcases|].
  split; [|split; [|split]].
  - rewrite Hcases, generateWithOpenAI_run.
    destruct (rbind _ _) as [[|c t]|e].
    + eexists; exists []; reflexivity.
    + eexists; exists []; reflexivity.
    + eexists; eexists. rewrite <- app_assoc. reflexivity.
  - intros e He. rewrite Hcases, generateWithOpenAI_run, He. cbn [rbind].
    rewrite <- app_assoc. reflexivity.
  - intros resp Hresp Hempty.
    rewrite Hcases, generateWithOpenAI_run, Hresp. cbn [rbind].
    destruct Hempty as [Hfalsy|[s [Hs Hblank]]].
    + rewrite Hfalsy. reflexivity.
    + rewrite Hs. cbn [truthy]. destruct (nonempty s); cbn [call_trim].
      * rewrite (trim_blank s Hblank). reflexivity.
      * reflexivity.
  - intros e log1 Hrun. rewrite Hcases, Hrun. reflexivity.
Qed.

(** The three ways to the fallback on concrete worlds: no key, a failing
    call, a blank answer. *)
Lemma generateArticle_falls_back_witness :
  (exists fallback,
      mode fallback = lit "fallback"
      /\ generateArticle world_without_key
           (typed_request (lit "Hello") [seg (lit "Hello and welcome")]
              (lit "brisk") [] (lit "short") (lit "auto") false) []
         = (Ok fallback, []))
  /\ (exists fallback call,
        mode fallback = lit "fallback"
        /\ generateArticle world_failing
             (typed_request (lit "Hello") [seg (lit "Hello and welcome")]
                (lit "brisk") [] (lit "short") (lit "auto") false) []
           = (Ok fallback,
              [ResponsesCreate call;
               ConsoleError (lit "OpenAI generation failed:")
                 (Rejected (lit "network"))]))
  /\ (exists fallback call,
        mode fallback = lit "fallback"
        /\ generateArticle (world_answering (JStr (lit "  ")))
             (typed_request (lit "Hello") [seg (lit "Hello and welcome")]
                (lit "brisk") [] (lit "short") (lit "auto") false) []
           = (Ok fallback, [ResponsesCreate call])).
Proof.
  split; [|split].
  - destruct (generateArticle_falls_back world_without_key (lit "Hello")
                [seg (lit "Hello and welcome")] (lit "brisk") [] (lit "short")
                (lit "auto") false [])
      as (sd & ls & fb & _ & _ & _ & Hnokey & _).
    exists {| article_text := fb; mode := lit "fallback" |}.
    split; [reflexivity|]. apply Hnokey. reflexivity.
  - destruct (generateArticle_falls_back world_failing (lit "Hello")
                [seg (lit "Hello and welcome")] (lit "brisk") [] (lit "short")
                (lit "auto") false [])
      as (sd & ls & fb & _ & _ & _ & _ & Hkey).
    destruct (Hkey eq_refl) as (_ & Hthrow & _).
    exists {| article_text := fb; mode := lit "fallback" |}.
    eexists. split; [reflexivity|].
    exact (Hthrow (Rejected (lit "network")) eq_refl).
  - destruct (generateArticle_falls_back (world_answering (JStr (lit "  ")))
                (lit "Hello") [seg (lit "Hello and welcome")] (lit "brisk") []
                (lit "short") (lit "auto") false [])
      as (sd & ls & fb & _ & _ & _ & _ & Hkey).
    destruct (Hkey eq_refl) as (_ & _ & Hblank & _).
    exists {| article_text := fb; mode := lit "fallback" |}.
    eexists. split; [reflexivity|].
    apply (Hblank {| output_text := JStr (lit "  ") |} eq_refl).
    right. exists (lit "  "). split; reflexivity.
Defined.

(** C9: the dispatcher returns a result whose mode is one of two values,
    ["openai"] (the external mode of the specification) and ["fallback"];
    it is ["openai"] exactly when a key is configured and the external
    generation returned the non-empty text that is the article, and
    otherwise the article is the rule-based one. *)
Theorem generateArticle_mode (w : World) (tr : jsstring)
  (segs : list segment) (p d n l : jsstring) (trunc : bool)
  (log : list event) :
  exists r log' sd ls,
    generateArticle w (typed_request tr segs p d n l trunc) log = (Ok r, log')
    /\ buildStyleDescriptor (JStr p) (JStr d) (JStr l) = Ok sd
    /\ lengthSpecFromChoice (JStr n) = Ok ls
    /\ (mode r = lit "openai" \/ mode r = lit "fallback")
    /\ (mode r = lit "openai" <->
        env_truthy (OPENAI_API_KEY w) = true
        /\ nonempty (article_text r) = true
        /\ exists log1,
             generateWithOpenAI w tr sd ls trunc log = (Ok (article_text r), log1))
    /\ (mode r = lit "fallback" ->
        ruleBasedArticle segs sd ls trunc = Ok (article_text r)).
Proof.
  destruct (buildStyleDescriptor_returns (JStr p) (JStr d) (JStr l))
    as [sd [Hsd _]]; try reflexivity.
  destruct (lengthSpecFromChoice_returns (JStr n)) as [ls [Hls _]];
    try reflexivity.
  destruct (ruleBasedArticle_returns segs sd ls trunc) as [fb Hfb].
  pose proof (generateArticle_cases w tr segs p d n l trunc log sd ls fb
                Hsd Hls Hfb) as Hcases.
  assert (Hdiff : lit "fallback" <> lit "openai") by discriminate.
  destruct (env_truthy (OPENAI_API_KEY w)) eqn:Hkey.
  - destruct (generateWithOpenAI w tr sd ls trunc log) as [[[|c t]|e] log1] eqn:Hrun;
      eexists; eexists; exists sd, ls;
      (split; [exact Hcases|]); (split; [exact Hsd|]); (split; [exact Hls|]);
      cbn [mode article_text].
    + split; [right; reflexivity|]. split; [|intros _; exact Hfb].
      split; [intros H; congruence|].
      intros (_ & Hne & log2 & H).
      assert (E : fb = []) by congruence.
      rewrite E in Hne. discriminate Hne.
    + split; [left; reflexivity|]. split; [|intros H; congruence].
      split; [|reflexivity].
      intros _. split; [reflexivity|]. split; [reflexivity|].
      exists log1; exact Hrun.
    + split; [right; reflexivity|]. split; [|intros _; exact Hfb].
      split; [intros H; congruence|].
      intros (_ & _ & log2 & H). congruence.
  - eexists; eexists; exists sd, ls.
    split; [exact Hcases|]. split; [exact Hsd|]. split; [exact Hls|].
    cbn [mode article_text].
    split; [right; reflexivity|]. split; [|intros _; exact Hfb].
    split; [intros H; congruence|]. intros (H & _). discriminate H.
Qed.

(** The dispatcher returns on a world whose model answers. *)
Lemma generateArticle_mode_witness :
  exists r log',
    generateArticle (world_answering (JStr (lit " An article. ")))
      (typed_request (lit "Hello") [seg (lit "Hello and welcome")]
         (lit "brisk") [] (lit "short") (lit "auto") false) []
    = (Ok r, log')
    /\ (mode r = lit "openai" \/ mode r = lit "fallback").
Proof.
  destruct (generateArticle_mode (world_answering (JStr (lit " An article. ")))
              (lit "Hello") [seg (lit "Hello and welcome")] (lit "brisk") []
              (lit "short") (lit "auto") false [])
    as (r & log' & sd & ls & Hgen & _ & _ & Hmode & _).
  exists r, log'. split; [exact Hgen|exact Hmode].
Defined.

(** The three outcomes on concrete worlds. *)
Example generateArticle_external_answer :
  generateArticle (world_answering (JStr (lit " An article. ")))
    (typed_request (lit "Hello") [seg (lit "Hello and welcome")]
       (lit "brisk") [] (lit "short") (lit "auto") false) []
  = (Ok {| article_text := lit "An article."; mode := lit "openai" |},
     [ResponsesCreate
        (openai_request (world_answering (JStr (lit " An article. ")))
           (lit "Hello") (lit "brisk") (lit "300-450 words") false)]).
Proof. vm_compute. reflexivity. Qed.

Example generateArticle_blank_answer :
  let r := generateArticle (world_answering (JStr (lit "  ")))
             (typed_request (lit "Hello") [seg (lit "Hello and welcome")]
                (lit "brisk") [] (lit "short") (lit "auto") false) [] in
  match fst r with
  | Ok a => mode a = lit "fallback"
  | Throw _ => False
  end
  /\ List.length (snd r) = 1.
Proof. vm_compute. split; reflexivity. Qed.

Example generateArticle_failed_call :
  let r := generateArticle world_failing
             (typed_request (lit "Hello") [seg (lit "Hello and welcome")]
                (lit "brisk") [] (lit "short") (lit "auto") false) [] in
  match fst r with
  | Ok a => mode a = lit "fallback"
  | Throw _ => False
  end
  /\ nth 1 (snd r) (FetchTranscript [])
     = ConsoleError (lit "OpenAI generation failed:") (Rejected (lit "network")).
Proof. vm_compute. split; reflexivity. Qed.

(** ** C5: the URL shapes *)

Ltac class_facts :=
  unfold is_visible, is_id_char, is_space, Whatwg.is_query_char,
    Whatwg.is_path_char, Whatwg.is_c0_or_space, Whatwg.is_tab_or_newline,
    Whatwg.ends_host, is_id_char in *;
  repeat match goal with
         | H : _ && _ = true |- _ => apply andb_true_iff in H; destruct H
         | H : _ || _ = true |- _ => apply orb_true_iff in H; destruct H
         | H : (_ <=? _)%N = true |- _ => apply N.leb_le in H
         | H : (_ =? _)%N = true |- _ => apply N.eqb_eq in H
         end.

Ltac no_such_unit c :=
  repeat match goal with
         | |- context [(c =? ?k)%N] =>
             replace (c =? k)%N with false by (symmetry; apply N.eqb_neq; lia)
         end.

Lemma id_char_visible (c : code_unit) : is_id_char c = true -> is_visible c = true.
Proof.
  intros H. class_facts; unfold is_visible;
    apply andb_true_iff; split; apply N.leb_le; lia.
Qed.

Lemma query_char_visible (c : code_unit) :
  Whatwg.is_query_char c = true -> is_visible c = true.
Proof.
  intros H. class_facts; unfold is_visible;
    apply andb_true_iff; split; apply N.leb_le; lia.
Qed.

Lemma visible_not_space (c : code_unit) : is_visible c = true -> is_space c = false.
Proof.
  intros H. class_facts. unfold is_space.
  replace (c <=? 13)%N with false by (symmetry; apply N.leb_gt; lia).
  replace (8192 <=? c)%N with false by (symmetry; apply N.leb_gt; lia).
  no_such_unit c.
  rewrite !andb_false_r. reflexivity.
Qed.

Lemma trimStart_visible (s : jsstring) :
  forallb is_visible s = true -> trimStart s = s.
Proof.
  destruct s as [|c s]; [reflexivity|]. simpl. intros H.
  apply andb_true_iff in H. destruct H as [Hc _].
  rewrite (visible_not_space c Hc). reflexivity.
Qed.

Lemma forallb_rev {A} (p : A -> bool) (l : list A) :
  forallb p l = true -> forallb p (rev l) = true.
Proof.
  rewrite !forallb_forall. intros H x Hx. apply H, in_rev, Hx.
Qed.

Lemma trim_visible (s : jsstring) : forallb is_visible s = true -> trim s = s.
Proof.
  intros H. unfold trim. rewrite (trimStart_visible s H), trimEnd_rev.
  rewrite (trimStart_visible (rev s) (forallb_rev _ _ H)). apply rev_involutive.
Qed.

Lemma drop_c0_visible (s : jsstring) :
  forallb is_visible s = true -> Whatwg.drop_while Whatwg.is_c0_or_space s = s.
Proof.
  destruct s as [|c s]; [reflexivity|]. simpl. intros H.
  apply andb_true_iff in H. destruct H as [Hc _].
  replace (Whatwg.is_c0_or_space c) with false; [reflexivity|].
  symmetry. class_facts. apply N.leb_gt. lia.
Qed.

Lemma preprocess_visible (s : jsstring) :
  forallb is_visible s = true -> Whatwg.preprocess s = s.
Proof.
  intros H. unfold Whatwg.preprocess.
  rewrite (drop_c0_visible s H), (drop_c0_visible (rev s) (forallb_rev _ _ H)).
  rewrite rev_involutive.
  induction s as [|c s IH]; [reflexivity|]. simpl in *.
  apply andb_true_iff in H. destruct H as [Hc Hs].
  replace (Whatwg.is_tab_or_newline c) with false.
  - simpl. rewrite (IH Hs). reflexivity.
  - symmetry. class_facts. no_such_unit c. reflexivity.
Qed.

Lemma take_while_all (p : code_unit -> bool) (s : jsstring) :
  forallb p s = true -> Whatwg.take_while p s = s.
Proof.
  induction s as [|c s IH]; [reflexivity|]. simpl. intros H.
  apply andb_true_iff in H. destruct H as [-> Hs]. rewrite (IH Hs). reflexivity.
Qed.

Lemma drop_while_all (p : code_unit -> bool) (s : jsstring) :
  forallb p s = true -> Whatwg.drop_while p s = [].
Proof.
  induction s as [|c s IH]; [reflexivity|]. simpl. intros H.
  apply andb_true_iff in H. destruct H as [-> Hs]. exact (IH Hs).
Qed.

Lemma take_while_stop (p : code_unit -> bool) (s : jsstring) (c : code_unit)
  (rest : jsstring) :
  forallb p s = true -> p c = false ->
  Whatwg.take_while p (s ++ c :: rest) = s.
Proof.
  intros Hs Hc. induction s as [|a s IH]; simpl.
  - rewrite Hc. reflexivity.
  - simpl in Hs. apply andb_true_iff in Hs. destruct Hs as [-> Hs].
    rewrite (IH Hs). reflexivity.
Qed.

Lemma drop_while_stop (p : code_unit -> bool) (s : jsstring) (c : code_unit)
  (rest : jsstring) :
  forallb p s = true -> p c = false ->
  Whatwg.drop_while p (s ++ c :: rest) = c :: rest.
Proof.
  intros Hs Hc. induction s as [|a s IH]; simpl.
  - rewrite Hc. reflexivity.
  - simpl in Hs. apply andb_true_iff in Hs. destruct Hs as [-> Hs].
    exact (IH Hs).
Qed.

Lemma forallb_impl {A} (p q : A -> bool) (l : list A) :
  (forall x, p x = true -> q x = true) ->
  forallb p l = true -> forallb q l = true.
Proof.
  intros Hpq. rewrite !forallb_forall. intros H x Hx. apply Hpq, H, Hx.
Qed.

Lemma id_char_path (c : code_unit) :
  is_id_char c = true -> Whatwg.is_path_char c = true.
Proof. intros H. unfold Whatwg.is_path_char. rewrite H. reflexivity. Qed.

Lemma id_char_query (c : code_unit) :
  is_id_char c = true -> Whatwg.is_query_char c = true.
Proof. intros H. unfold Whatwg.is_query_char. rewrite H. reflexivity. Qed.

Lemma id_char_not (k : code_unit) (c : code_unit) :
  is_id_char k = false -> is_id_char c = true -> (c =? k)%N = false.
Proof.
  intros Hk Hc. destruct (N.eqb_spec c k) as [->|]; [congruence|reflexivity].
Qed.

Lemma valid_id_facts (id : jsstring) :
  valid_id id = true ->
  exists c t, id = c :: t /\ forallb is_id_char id = true.
Proof.
  unfold valid_id. intros H. apply andb_true_iff in H. destruct H as [Hne Hall].
  destruct id as [|c t]; [discriminate|]. exists c, t. split; [reflexivity|exact Hall].
Qed.

Lemma labels_ok_host (b : bool) (h : jsstring) :
  Whatwg.labels_ok b h = true ->
  forallb (fun c => negb (Whatwg.ends_host c)) h = true.
Proof.
  revert b; induction h as [|c h IH]; intros b; [reflexivity|].
  simpl. destruct (N.eqb_spec c 46) as [->|Hc].
  - intros H. apply andb_true_iff in H. destruct H as [_ H].
    rewrite (IH true H). reflexivity.
  - intros H. apply andb_true_iff in H. destruct H as [Hl H].
    rewrite (IH false H), andb_true_r.
    unfold Whatwg.is_lower in Hl. unfold Whatwg.ends_host. class_facts.
    no_such_unit c. reflexivity.
Qed.

(** The written-out part of the parser on a URL given by its components;
    [qpart] is empty or a [?] and the query. *)
Lemma parse_http_components (sc : scheme) (host path qpart : jsstring) :
  Whatwg.labels_ok true host = true ->
  forallb Whatwg.is_path_char path = true ->
  match path with [] => true | c :: _ => (c =? 47)%N end = true ->
  match qpart with
  | [] => true
  | c :: q => (c =? 63)%N && forallb Whatwg.is_query_char q
  end = true ->
  Whatwg.parse_http (scheme_text sc ++ host ++ path ++ qpart)
  = Some {| hostname := host;
            pathname := if nonempty path then path else lit "/";
            searchParams :=
              match qpart with
              | [] => []
              | _ :: q => Whatwg.parse_query q
              end |}.
Proof.
  intros Hhost Hpath Hslash Hquery. unfold Whatwg.parse_http.
  assert (Hscheme : Whatwg.after_scheme (scheme_text sc ++ host ++ path ++ qpart)
                    = Some (host ++ path ++ qpart))
    by (destruct sc; reflexivity).
  rewrite Hscheme. clear Hscheme. cbv beta iota zeta.
  pose proof (labels_ok_host true host Hhost) as Hh.
  assert (Hq : qpart = [] \/ exists q, qpart = 63%N :: q
                                       /\ forallb Whatwg.is_query_char q = true).
  { destruct qpart as [|c q]; [left; reflexivity|right].
    apply andb_true_iff in Hquery. destruct Hquery as [Hc Hq].
    apply N.eqb_eq in Hc. subst c. exists q; auto. }
  assert (Htake : Whatwg.take_while (fun c => negb (Whatwg.ends_host c))
                    (host ++ path ++ qpart) = host
                  /\ Whatwg.drop_while (fun c => negb (Whatwg.ends_host c))
                       (host ++ path ++ qpart) = path ++ qpart).
  { destruct (path ++ qpart) as [|c rest] eqn:Etail.
    - rewrite app_nil_r. split; [apply take_while_all|apply drop_while_all]; exact Hh.
    - assert (Hc : negb (Whatwg.ends_host c) = false).
      { destruct path as [|c' path'].
        - simpl in Etail. destruct Hq as [->|[q [-> _]]]; [discriminate|].
          injection Etail as <- _. reflexivity.
        - injection Etail as <- _. apply N.eqb_eq in Hslash. subst c'. reflexivity. }
      split; [apply take_while_stop|apply drop_while_stop]; assumption. }
  destruct Htake as [-> ->]. rewrite Hhost.
  assert (Hp : Whatwg.take_while Whatwg.is_path_char (path ++ qpart) = path
               /\ Whatwg.drop_while Whatwg.is_path_char (path ++ qpart) = qpart).
  { destruct Hq as [->|[q [-> _]]].
    - rewrite app_nil_r. split; [apply take_while_all|apply drop_while_all]; auto.
    - split; [apply take_while_stop|apply drop_while_stop]; auto. }
  destruct Hp as [-> ->].
  destruct Hq as [->|[q [-> Hq]]]; [reflexivity|].
  rewrite N.eqb_refl, Hq. reflexivity.
Qed.

Lemma URL_basic_conforms : Whatwg.conforms Whatwg.URL_basic.
Proof. intros s r H. unfold Whatwg.URL_basic. rewrite H. reflexivity. Qed.

Lemma split_on_run (sep : code_unit) (a cur tail : jsstring) :
  forallb (fun c => negb (c =? sep)%N) a = true ->
  Whatwg.split_on sep cur (a ++ tail) = Whatwg.split_on sep (rev_append a cur) tail.
Proof.
  revert cur; induction a as [|c a IH]; intros cur H; [reflexivity|].
  simpl in H. apply andb_true_iff in H. destruct H as [Hc Ha].
  simpl. apply negb_true_iff in Hc. rewrite Hc. apply IH, Ha.
Qed.

Lemma parse_query_v (id extra : jsstring) :
  valid_id id = true -> valid_extra extra = true ->
  exists others,
    Whatwg.parse_query (lit "v=" ++ id ++ extra) = (lit "v", id) :: others.
Proof.
  intros Hid Hextra. destruct (valid_id_facts id Hid) as (c & t & E & Hall).
  assert (Hrun : forallb (fun c => negb (c =? 38)%N) (lit "v=" ++ id) = true).
  { rewrite forallb_app. apply andb_true_iff. split; [reflexivity|].
    apply (forallb_impl is_id_char); [|exact Hall].
    intros x Hx. rewrite (id_char_not 38%N x); [reflexivity|reflexivity|exact Hx]. }
  assert (Hfirst : exists pieces,
             Whatwg.split_on 38%N [] (lit "v=" ++ id ++ extra)
             = (lit "v=" ++ id) :: pieces).
  { rewrite app_assoc, (split_on_run 38%N _ [] extra Hrun).
    rewrite rev_append_rev, app_nil_r.
    destruct extra as [|e rest].
    - exists []. cbn [Whatwg.split_on]. rewrite rev_involutive. reflexivity.
    - simpl in Hextra. apply andb_true_iff in Hextra. destruct Hextra as [He _].
      cbn [Whatwg.split_on]. rewrite He, rev_involutive. eexists; reflexivity. }
  destruct Hfirst as [pieces Hp]. unfold Whatwg.parse_query. rewrite Hp.
  eexists. cbn. reflexivity.
Qed.

Lemma remove_slashes_id (id : jsstring) :
  forallb is_id_char id = true -> remove_slashes (lit "/" ++ id) = id.
Proof.
  intros H. unfold remove_slashes. simpl.
  induction id as [|c id IH]; [reflexivity|].
  simpl in *. apply andb_true_iff in H. destruct H as [Hc Hid].
  rewrite (id_char_not 47%N c); [|reflexivity|exact Hc]. simpl.
  rewrite (IH Hid). reflexivity.
Qed.

Lemma run_length_all (p : code_unit -> bool) (s : jsstring) :
  forallb p s = true -> run_length p s = List.length s.
Proof.
  induction s as [|c s IH]; [reflexivity|]. simpl. intros H.
  apply andb_true_iff in H. destruct H as [-> Hs]. rewrite (IH Hs). reflexivity.
Qed.

Lemma give_back_first {R} (min : nat) (s : jsstring)
  (k : jsstring -> option R) (j : nat) (x : R) :
  min <= j -> k (skipn j s) = Some x -> give_back min s k j = Some x.
Proof.
  intros Hmin Hk. apply Nat.ltb_ge in Hmin.
  destruct j; cbn [give_back]; rewrite Hmin, Hk; reflexivity.
Qed.

Lemma strip_prefix_app (l rest : jsstring) :
  strip_prefix l (l ++ rest) = Some rest.
Proof.
  induction l as [|c l IH]; [destruct rest; reflexivity|].
  simpl. rewrite N.eqb_refl. exact IH.
Qed.

Lemma firstn_prefix {A} (a b : list A) :
  firstn (List.length (a ++ b) - List.length b) (a ++ b) = a.
Proof.
  rewrite length_app, Nat.add_sub, firstn_app, Nat.sub_diag, firstn_all.
  simpl. apply app_nil_r.
Qed.

Lemma run_seq {R} (a b : regex) (s : jsstring) (caps : list jsstring)
  (k : jsstring -> list jsstring -> option R) :
  run (RSeq a b) s caps k = run a s caps (fun rest caps' => run b rest caps' k).
Proof. reflexivity. Qed.

Lemma run_lit {R} (l rest : jsstring) (caps : list jsstring)
  (k : jsstring -> list jsstring -> option R) :
  run (RLit l) (l ++ rest) caps k = k rest caps.
Proof. cbn [run]. rewrite strip_prefix_app. reflexivity. Qed.

Lemma run_kind {R} (kind : path_kind) (rest : jsstring) (caps : list jsstring)
  (k : jsstring -> list jsstring -> option R) :
  run (RGroup (RAlt (RLit (lit "shorts"))
                 (RAlt (RLit (lit "live")) (RLit (lit "embed")))))
    (kind_text kind ++ rest) caps k
  = k rest (caps ++ [kind_text kind]).
Proof.
  cbn [run].
  destruct kind.
  - change (kind_text Shorts) with (lit "shorts").
    rewrite strip_prefix_app, firstn_prefix.
    replace (strip_prefix (lit "live") (lit "shorts" ++ rest)) with (@None jsstring)
      by reflexivity.
    replace (strip_prefix (lit "embed") (lit "shorts" ++ rest)) with (@None jsstring)
      by reflexivity.
    destruct (k rest _); reflexivity.
  - change (kind_text Live) with (lit "live").
    rewrite strip_prefix_app, firstn_prefix.
    replace (strip_prefix (lit "shorts") (lit "live" ++ rest)) with (@None jsstring)
      by reflexivity.
    replace (strip_prefix (lit "embed") (lit "live" ++ rest)) with (@None jsstring)
      by reflexivity.
    destruct (k rest _); reflexivity.
  - change (kind_text Embed) with (lit "embed").
    rewrite strip_prefix_app, firstn_prefix.
    replace (strip_prefix (lit "shorts") (lit "embed" ++ rest)) with (@None jsstring)
      by reflexivity.
    replace (strip_prefix (lit "live") (lit "embed" ++ rest)) with (@None jsstring)
      by reflexivity.
    reflexivity.
Qed.

Lemma exec_here (r : regex) (s : jsstring) (caps : list jsstring) :
  run r s [] (fun _ caps' => Some caps') = Some caps -> exec r s = Some caps.
Proof. intros H. destruct s; simpl; rewrite H; reflexivity. Qed.

(** The path pattern on [/<kind>/<id>]: the second capture is the id. *)
Lemma exec_path_pattern (kind : path_kind) (id : jsstring) :
  valid_id id = true ->
  exec path_pattern (lit "/" ++ kind_text kind ++ lit "/" ++ id)
  = Some [kind_text kind; id].
Proof.
  intros Hid. destruct (valid_id_facts id Hid) as (c & t & E & Hall).
  assert (Hclass : forallb is_segment_char id = true).
  { apply (forallb_impl is_id_char); [|exact Hall]. intros x Hx.
    unfold is_segment_char.
    rewrite (id_char_not 47%N x), (id_char_not 63%N x); auto. }
  apply exec_here. unfold path_pattern.
  rewrite run_seq, run_lit, run_seq, run_kind, run_seq, run_lit.
  cbn [run]. rewrite (run_length_all _ _ Hclass).
  apply give_back_first.
  - rewrite E. simpl. lia.
  - rewrite skipn_all. cbn [List.length]. rewrite Nat.sub_0_r, firstn_all.
    reflexivity.
Qed.

Lemma youtube_url_components (sc : scheme) (shape : url_shape) (id : jsstring) :
  youtube_url sc shape id
  = scheme_text sc ++ shape_host shape ++ shape_path shape id
      ++ shape_query shape id.
Proof.
  unfold youtube_url. f_equal.
  destruct shape as [[|]|[| | |] extra|[| | |] [| |]];
    cbn [shape_host shape_path shape_query subdomain_text kind_text];
    rewrite ?app_nil_r, <- ?app_assoc; reflexivity.
Qed.

Lemma valid_extra_query (extra : jsstring) :
  valid_extra extra = true -> forallb Whatwg.is_query_char extra = true.
Proof.
  destruct extra as [|c rest]; [reflexivity|]. simpl. intros H.
  apply andb_true_iff in H. destruct H as [Hc Hrest].
  apply N.eqb_eq in Hc. subst c. exact Hrest.
Qed.

Lemma youtube_url_visible (sc : scheme) (shape : url_shape) (id : jsstring) :
  valid_id id = true -> valid_shape shape = true ->
  forallb is_visible (youtube_url sc shape id) = true.
Proof.
  intros Hid Hshape. destruct (valid_id_facts id Hid) as (c & t & _ & Hall).
  pose proof (forallb_impl _ _ _ id_char_visible Hall) as Hvis.
  unfold youtube_url. rewrite forallb_app. apply andb_true_iff.
  split; [destruct sc; reflexivity|].
  destruct shape as [[|]|sub extra|sub kind]; rewrite !forallb_app, ?Hvis.
  - reflexivity.
  - reflexivity.
  - simpl in Hshape.
    rewrite (forallb_impl _ _ _ query_char_visible (valid_extra_query _ Hshape)).
    destruct sub; reflexivity.
  - destruct sub, kind; reflexivity.
Qed.

Lemma URL_model_shape (sc : scheme) (shape : url_shape) (id : jsstring) :
  valid_id id = true -> valid_shape shape = true ->
  Whatwg.URL_model (youtube_url sc shape id)
  = Some (Ok {| hostname := shape_host shape;
                pathname := shape_path shape id;
                searchParams :=
                  match shape_query shape id with
                  | [] => []
                  | _ :: q => Whatwg.parse_query q
                  end |}).
Proof.
  intros Hid Hshape. destruct (valid_id_facts id Hid) as (c & t & _ & Hall).
  unfold Whatwg.URL_model.
  rewrite (preprocess_visible _ (youtube_url_visible sc shape id Hid Hshape)).
  assert (Hscheme : Whatwg.has_scheme (youtube_url sc shape id) = true)
    by (destruct sc; reflexivity).
  rewrite Hscheme. cbn [negb].
  rewrite youtube_url_components, parse_http_components.
  - assert (Hne : nonempty (shape_path shape id) = true)
      by (destruct shape; reflexivity).
    rewrite Hne. reflexivity.
  - destruct shape as [[|]|[| | |] extra|[| | |] kind]; reflexivity.
  - pose proof (forallb_impl _ _ _ id_char_path Hall) as Hp.
    destruct shape as [www|sub extra|sub kind];
      cbn [shape_path]; rewrite ?forallb_app, ?Hp; try reflexivity.
    destruct kind; reflexivity.
  - destruct shape; reflexivity.
  - destruct shape as [www|sub extra|sub kind]; try reflexivity.
    cbn [shape_query]. simpl in Hshape.
    change (lit "?v=" ++ id ++ extra) with (63%N :: lit "v=" ++ id ++ extra).
    cbv beta iota. rewrite !forallb_app.
    rewrite (forallb_impl _ _ _ id_char_query Hall), (valid_extra_query _ Hshape).
    reflexivity.
Qed.

(** C5: with a URL parser that conforms to the WHATWG algorithm on the
    part written out above, the extractor returns the embedded id exactly
    for every URL [http(s)://] followed by [youtu.be/<id>] (with or without
    [www.]), [youtube.com/watch?v=<id>] possibly followed by [&...] extra
    parameters, or [youtube.com/shorts/<id>], [/live/<id>], [/embed/<id>]
    (host bare or with [www.], [m.], [music.]), the id being any non-empty
    string over [A-Za-z0-9_-]. *)
Theorem extractVideoId_returns_id (URL_new : jsstring -> result URL)
  (sc : scheme) (shape : url_shape) (id : jsstring) :
  Whatwg.conforms URL_new ->
  valid_id id = true ->
  valid_shape shape = true ->
  extractVideoId URL_new (youtube_url sc shape id) = Ok (JStr id).
Proof.
  intros Hconf Hid Hshape.
  destruct (valid_id_facts id Hid) as (c & t & E & Hall).
  unfold extractVideoId.
  rewrite (trim_visible _ (youtube_url_visible sc shape id Hid Hshape)).
  unfold extractVideoId_try.
  rewrite (Hconf _ _ (URL_model_shape sc shape id Hid Hshape)).
  cbn [rbind hostname pathname searchParams].
  destruct shape as [www|sub extra|sub kind].
  - assert (Hhost : remove_first (lit "www.") (shape_host (ShortLink www))
                    = lit "youtu.be") by (destruct www; reflexivity).
    rewrite Hhost. cbn [shape_path].
    rewrite (remove_slashes_id id Hall). reflexivity.
  - assert (Hhost : JS.eqb (remove_first (lit "www.") (shape_host (Watch sub extra)))
                      (lit "youtu.be") = false
                    /\ endsWith (remove_first (lit "www.") (shape_host (Watch sub extra)))
                         (lit "youtube.com") = true)
      by (destruct sub; split; reflexivity).
    destruct Hhost as [-> ->].
    simpl in Hshape. destruct (parse_query_v id extra Hid Hshape) as [others Hq].
    change (shape_query (Watch sub extra) id) with (63%N :: lit "v=" ++ id ++ extra).
    cbv iota. rewrite Hq. cbn [searchParams_get].
    replace (JS.eqb (lit "v") (lit "v")) with true by reflexivity.
    rewrite E. reflexivity.
  - assert (Hhost : JS.eqb (remove_first (lit "www.") (shape_host (PathForm sub kind)))
                      (lit "youtu.be") = false
                    /\ endsWith (remove_first (lit "www.") (shape_host (PathForm sub kind)))
                         (lit "youtube.com") = true)
      by (destruct sub; split; reflexivity).
    destruct Hhost as [-> ->].
    cbn [shape_query shape_path searchParams_get].
    rewrite (exec_path_pattern kind id Hid). reflexivity.
Qed.

(** The two scenarios of the specification. *)
Lemma extractVideoId_returns_id_witness :
  extractVideoId Whatwg.URL_basic (lit "https://youtu.be/abc123xy")
    = Ok (JStr (lit "abc123xy"))
  /\ extractVideoId Whatwg.URL_basic
       (lit "https://www.youtube.com/watch?v=abc123xy&t=5")
     = Ok (JStr (lit "abc123xy")).
Proof.
  split.
  - exact (extractVideoId_returns_id Whatwg.URL_basic Https (ShortLink false)
             (lit "abc123xy") URL_basic_conforms eq_refl eq_refl).
  - exact (extractVideoId_returns_id Whatwg.URL_basic Https
             (Watch Www (lit "&t=5")) (lit "abc123xy")
             URL_basic_conforms eq_refl eq_refl).
Defined.

(** ** C6: inputs without an id *)


Lemma run_length_le (p : code_unit -> bool) (s : jsstring) :
  run_length p s <= List.length s.
Proof.
  induction s as [|c s IH]; simpl; [lia|]. destruct (p c); simpl; lia.
Qed.



(** The capturing group [([a-zA-Z0-9_-]{6,})] with nothing after it: the
    whole run of id characters, when there are six. *)
Lemma run_token_group (rest : jsstring) (caps : list jsstring) :
  run (RGroup (RClass is_id_char 6)) rest caps (fun _ caps' => Some caps')
  = if 6 <=? run_length is_id_char rest
    then Some (caps ++ [firstn (run_length is_id_char rest) rest])
    else None.
Proof.
  cbn [run]. pose proof (run_length_le is_id_char rest) as Hle.
  set (j := run_length is_id_char rest) in *.
  assert (Hcap : List.length rest - List.length (skipn j rest) = j)
    by (rewrite length_skipn; lia).
  destruct (6 <=? j) eqn:H6.
  - apply Nat.leb_le in H6. apply give_back_first; [exact H6|].
    rewrite Hcap. reflexivity.
  - apply Nat.leb_gt in H6. apply Nat.ltb_lt in H6.
    destruct j; cbn [give_back]; rewrite H6; reflexivity.
Qed.

Lemma run_alt_lit {R} (p : jsstring) (r : regex) (s : jsstring)
  (caps : list jsstring) (k : jsstring -> list jsstring -> option R) :
  run (RAlt (RLit p) r) s caps k
  = match strip_prefix p s with
    | Some rest =>
        match k rest caps with
        | Some x => Some x
        | None => run r s caps k
        end
    | None => run r s caps k
    end.
Proof. cbn [run]. destruct (strip_prefix p s); reflexivity. Qed.

Lemma run_lit_cases {R} (p s : jsstring) (caps : list jsstring)
  (k : jsstring -> list jsstring -> option R) :
  run (RLit p) s caps k
  = match strip_prefix p s with
    | Some rest => k rest caps
    | None => None
    end.
Proof. reflexivity. Qed.

Lemma run_fallback_pattern (s : jsstring) :
  run fallback_pattern s [] (fun _ caps => Some caps)
  = match token_after id_prefixes s with
    | Some token => Some [token]
    | None => None
    end.
Proof.
  unfold fallback_pattern. rewrite run_seq.
  set (G := RGroup (RClass is_id_char 6)).
  rewrite !run_alt_lit, run_lit_cases. cbv beta. subst G.
  cbn [token_after id_prefixes].
  repeat match goal with
         | |- context [strip_prefix ?p s] =>
             destruct (strip_prefix p s) as [?rest|]
         end;
    rewrite ?run_token_group;
    repeat match goal with
           | |- context [6 <=? ?j] => destruct (6 <=? j)
           end; reflexivity.
Qed.




Lemma exec_unfold (r : regex) (s : jsstring) :
  exec r s
  = match run r s [] (fun _ caps => Some caps) with
    | Some caps => Some caps
    | None =>
        match s with
        | [] => None
        | _ :: rest => exec r rest
        end
    end.
Proof. destruct s; reflexivity. Qed.







(** ** The handler *)

Lemma generateArticle_returns (w : World) (tr : jsstring)
  (segs : list segment) (p d n l : jsstring) (trunc : bool)
  (log : list event) :
  exists r log',
    generateArticle w (typed_request tr segs p d n l trunc) log = (Ok r, log').
Proof.
  destruct (buildStyleDescriptor_returns (JStr p) (JStr d) (JStr l))
    as [sd [Hsd _]]; try reflexivity.
  destruct (lengthSpecFromChoice_returns (JStr n)) as [ls [Hls _]];
    try reflexivity.
  destruct (ruleBasedArticle_returns segs sd ls trunc) as [fb Hfb].
  rewrite (generateArticle_cases w tr segs p d n l trunc log sd ls fb Hsd Hls Hfb).
  destruct (env_truthy _); [|eexists; eexists; reflexivity].
  destruct (generateWithOpenAI _ _ _ _ _ _) as [[[|c t]|e] log1];
    eexists; eexists; reflexivity.
Qed.

(** When the URL gives an id and the transcript service gives segments,
    the answer is 200 and carries the transcript and the flag of
    [prepareTranscript]. *)
Lemma api_generate_sends_prepared (w : World) (u id : jsstring)
  (sg : segment) (segs : list segment) (p d n l : jsstring)
  (log : list event) :
  nonempty u = true -> nonempty id = true ->
  extractVideoId (URL_new w) u = Ok (JStr id) ->
  fetchTranscript w id = Ok (Some (sg :: segs)) ->
  exists article mode log',
    api_generate w
      {| url := JStr u;
         body_stylePreset := JStr p;
         body_styleDetail := JStr d;
         body_length := JStr n;
         body_language := JStr l |} log
    = (Ok {| status := 200;
             json := ResultJson id
                       (fst (prepareTranscript (sg :: segs)))
                       (snd (prepareTranscript (sg :: segs)))
                       article mode |}, log').
Proof.
  intros Hu Hid Hextract Hfetch. unfold api_generate. cbn [url].
  rewrite Hu. cbn [negb]. unfold bind at 1. unfold lift at 1.
  rewrite Hextract, Hid. cbn [negb].
  unfold bind at 1. unfold try_catch at 1. unfold bind at 1. unfold emit at 1.
  unfold bind at 1. unfold lift at 1. rewrite Hfetch. unfold ret at 1.
  destruct (prepareTranscript (sg :: segs)) as [tr trunc].
  cbn [body_stylePreset body_styleDetail body_length body_language fst snd].
  unfold try_catch, bind.
  destruct (generateArticle_returns w tr (sg :: segs) p d n l trunc
              (log ++ [FetchTranscript id])) as (r & log' & Hgen).
  unfold typed_request in Hgen. rewrite Hgen. unfold ret.
  eexists; eexists; eexists; reflexivity.
Qed.

Example api_generate_without_key :
  exists article,
    api_generate world_without_key
      {| url := JStr (lit " https://youtu.be/abc123xy ");
         body_stylePreset := JStr (lit "brisk");
         body_styleDetail := JUndefined;
         body_length := JStr (lit "long");
         body_language := JStr (lit "auto") |} []
    = (Ok {| status := 200;
             json := ResultJson (lit "abc123xy") (lit "Hello and welcome")
                       false article (lit "fallback") |},
       [FetchTranscript (lit "abc123xy")]).
Proof. eexists. vm_compute. reflexivity. Qed.

Example api_generate_bad_url :
  fst (api_generate world_without_key
         {| url := JStr (lit "not a url");
            body_stylePreset := JUndefined;
            body_styleDetail := JUndefined;
            body_length := JUndefined;
            body_language := JUndefined |} [])
  = Ok {| status := 400;
          json := ErrorJson (lit "Unable to parse the YouTube video ID.") |}.
Proof. vm_compute. reflexivity. Qed.

Example lengthSpecFromChoice_table :
  lengthSpecFromChoice (JStr (lit "Short")) = Ok (lit "300-450 words")
  /\ lengthSpecFromChoice (JStr (lit "medium")) = Ok (lit "600-900 words")
  /\ lengthSpecFromChoice (JStr (lit "long")) = Ok (lit "1000-1400 words")
  /\ lengthSpecFromChoice (JStr (lit "huge")) = Ok (lit "600-900 words")
  /\ lengthSpecFromChoice JUndefined = Ok (lit "600-900 words").
Proof. repeat split. Qed.

(** * Properties read off the code *)

(** ** The normalizer *)

Lemma collapse_normal (b : bool) (s : jsstring) :
  no_runs b s = true -> collapse_from b s = s.
Proof.
  revert b; induction s as [|c s IH]; intros b; [reflexivity|].
  simpl. destruct (is_space c).
  - intros H. apply andb_true_iff in H. destruct H as [H Hs].
    apply andb_true_iff in H. destruct H as [Hc Hb].
    apply N.eqb_eq in Hc. subst c. destruct b; [discriminate|].
    rewrite (IH true Hs). reflexivity.
  - intros H. rewrite (IH false H). reflexivity.
Qed.

Lemma trim_normal (s : jsstring) : whitespace_normal s = true -> trim s = s.
Proof.
  unfold whitespace_normal. intros H. apply andb_true_iff in H.
  destruct H as [Hruns Hend]. apply negb_true_iff in Hend.
  unfold trim. rewrite (trimStart_fixed s (no_runs_head s Hruns)).
  apply trimEnd_fixed, Hend.
Qed.

Lemma clean_normal (s : jsstring) :
  whitespace_normal s = true -> trim (replace_spaces s) = s.
Proof.
  intros H. unfold replace_spaces. rewrite collapse_normal.
  - apply trim_normal, H.
  - apply no_runs_weaken. unfold whitespace_normal in H.
    apply andb_true_iff in H. apply H.
Qed.

(** X1: the transcript is whitespace-normalized, and normalizing it again
    changes nothing. *)
Theorem normalizeTranscript_idempotent (segs : list segment) :
  whitespace_normal (normalizeTranscript segs) = true
  /\ normalizeTranscript [seg (normalizeTranscript segs)]
     = normalizeTranscript segs.
Proof.
  split; [apply trim_replace_normal|].
  unfold normalizeTranscript at 1. cbn [List.map text text_prop seg join_item join].
  apply clean_normal, trim_replace_normal.
Qed.

(** *** The normalized text is the words joined by single spaces *)

Lemma words_from_words (cur s : jsstring) :
  forallb (fun c => negb (is_space c)) cur = true ->
  Forall is_word (words_from cur s).
Proof.
  revert cur; induction s as [|c s IH]; intros cur Hcur; simpl.
  - destruct cur as [|a cur]; [constructor|]. constructor; [|constructor].
    split; [destruct (rev (a :: cur)) eqn:E; [|reflexivity];
            apply (f_equal (@List.length _)) in E; rewrite length_rev in E;
            discriminate|].
    apply forallb_forall. intros x Hx. apply in_rev in Hx.
    rewrite forallb_forall in Hcur. apply Hcur, Hx.
  - destruct (is_space c) eqn:Hc.
    + destruct cur as [|a cur]; [apply IH; reflexivity|].
      constructor; [|apply IH; reflexivity].
      split; [destruct (rev (a :: cur)) eqn:E; [|reflexivity];
              apply (f_equal (@List.length _)) in E; rewrite length_rev in E;
              discriminate|].
      apply forallb_forall. intros x Hx. apply in_rev in Hx.
      rewrite forallb_forall in Hcur. apply Hcur, Hx.
    + apply IH. simpl. rewrite Hc. exact Hcur.
Qed.

Lemma join_cons (sep p : jsstring) (parts : list jsstring) :
  join sep (p :: parts)
  = p ++ match parts with [] => [] | _ :: _ => sep ++ join sep parts end.
Proof. destruct parts; [symmetry; apply app_nil_r|reflexivity]. Qed.

(** Collapsing gives the words joined by spaces, and at most white space
    after them. *)
Lemma collapse_words (s : jsstring) :
  (forall cur, cur <> [] ->
     exists ws, blank ws = true
                /\ rev cur ++ collapse_from false s
                   = join [SP] (words_from cur s) ++ ws)
  /\ (exists ws, blank ws = true
                 /\ collapse_from true s = join [SP] (words_from [] s) ++ ws).
Proof.
  induction s as [|c s [IHP IHQ]].
  - split.
    + intros cur Hcur. exists []. split; [reflexivity|].
      destruct cur; [congruence|]. simpl. rewrite !app_nil_r. reflexivity.
    + exists []. split; reflexivity.
  - split.
    + intros cur Hcur. simpl. destruct (is_space c) eqn:Hc.
      * destruct cur as [|a cur]; [congruence|]. cbn [nonempty].
        destruct IHQ as [ws [Hws E]]. rewrite E, join_cons.
        destruct (words_from [] s) as [|w ws'].
        -- exists (SP :: ws). split; [simpl; rewrite Hws; reflexivity|].
           simpl. rewrite app_nil_r. reflexivity.
        -- exists ws. split; [exact Hws|].
           rewrite <- !app_assoc. reflexivity.
      * destruct (IHP (c :: cur)) as [ws [Hws E]]; [discriminate|].
        exists ws. split; [exact Hws|]. rewrite <- E. simpl.
        rewrite <- app_assoc. reflexivity.
    + simpl. destruct (is_space c) eqn:Hc.
      * exact IHQ.
      * destruct (IHP [c]) as [ws [Hws E]]; [discriminate|].
        exists ws. split; [exact Hws|]. exact E.
Qed.

Lemma trimStart_collapse (b : bool) (s : jsstring) :
  trimStart (collapse_from b s) = collapse_from true s.
Proof.
  revert b; induction s as [|c s IH]; intros b; [reflexivity|].
  simpl. destruct (is_space c) eqn:Hc.
  - destruct b; [apply IH|]. simpl. apply (IH true).
  - simpl. rewrite Hc. reflexivity.
Qed.

Lemma trimStart_blank_app (ws s : jsstring) :
  blank ws = true -> trimStart (ws ++ s) = trimStart s.
Proof.
  induction ws as [|c ws IH]; [reflexivity|]. simpl. intros H.
  apply andb_true_iff in H. destruct H as [-> H]. exact (IH H).
Qed.

Lemma trimEnd_unique (x y ws : jsstring) :
  x = y ++ ws -> blank ws = true -> starts_with_space (rev y) = false ->
  trimEnd x = y.
Proof.
  intros -> Hws Hy. rewrite trimEnd_rev, rev_app_distr.
  rewrite trimStart_blank_app by (apply forallb_rev, Hws).
  rewrite (trimStart_fixed _ Hy). apply rev_involutive.
Qed.

Lemma join_words_end (ws : list jsstring) :
  Forall is_word ws -> starts_with_space (rev (join [SP] ws)) = false.
Proof.
  induction 1 as [|w ws [Hne Hw] Hws IH]; [reflexivity|].
  rewrite join_cons. destruct ws as [|w' ws].
  - rewrite app_nil_r. destruct (rev w) as [|c r] eqn:E; [reflexivity|].
    simpl. rewrite forallb_forall in Hw.
    apply negb_true_iff, Hw, in_rev. rewrite E. left; reflexivity.
  - rewrite !rev_app_distr.
    destruct (rev (join [SP] (w' :: ws))) as [|c r] eqn:E; [|exact IH].
    apply (f_equal (@rev _)) in E. rewrite rev_involutive in E.
    rewrite join_cons in E. inversion Hws as [|? ? [Hne' _] _]; subst.
    destruct w'; discriminate.
Qed.

Lemma clean_words (s : jsstring) :
  trim (replace_spaces s) = join [SP] (words s).
Proof.
  unfold trim, replace_spaces. rewrite trimStart_collapse.
  destruct (proj2 (collapse_words s)) as [ws [Hws E]].
  apply (trimEnd_unique _ _ ws E Hws).
  apply join_words_end, words_from_words. reflexivity.
Qed.

Lemma words_from_space (cur a b : jsstring) :
  words_from cur (a ++ SP :: b) = words_from cur a ++ words b.
Proof.
  revert cur; induction a as [|c a IH]; intros cur.
  - simpl. destruct (nonempty cur); reflexivity.
  - simpl. destruct (is_space c).
    + destruct (nonempty cur); rewrite (IH []); reflexivity.
    + apply IH.
Qed.

Lemma words_join (texts : list jsstring) :
  words (join [SP] texts) = flat_map words texts.
Proof.
  induction texts as [|p rest IH]; [reflexivity|].
  rewrite join_cons. destruct rest as [|q rest].
  - simpl. rewrite !app_nil_r. reflexivity.
  - change ([SP] ++ join [SP] (q :: rest)) with (SP :: join [SP] (q :: rest)).
    unfold words at 1. rewrite words_from_space. fold (words p).
    rewrite IH. reflexivity.
Qed.

Lemma words_from_word (cur w : jsstring) :
  forallb (fun c => negb (is_space c)) w = true ->
  words_from cur w = if nonempty (rev cur ++ w) then [rev cur ++ w] else [].
Proof.
  revert cur; induction w as [|c w IH]; intros cur H.
  - simpl. rewrite app_nil_r. destruct cur as [|a cur]; [reflexivity|].
    destruct (rev (a :: cur)) eqn:E; [|reflexivity].
    apply (f_equal (@List.length _)) in E. rewrite length_rev in E. discriminate.
  - simpl in H. apply andb_true_iff in H. destruct H as [Hc Hw].
    apply negb_true_iff in Hc. simpl. rewrite Hc, (IH (c :: cur) Hw).
    simpl. rewrite <- app_assoc. reflexivity.
Qed.

Lemma words_of_words (ws : list jsstring) :
  Forall is_word ws -> flat_map words ws = ws.
Proof.
  induction 1 as [|w ws [Hne Hw] _ IH]; [reflexivity|].
  simpl. rewrite IH. unfold words. rewrite (words_from_word [] w Hw).
  simpl. rewrite Hne. reflexivity.
Qed.

Lemma words_from_blank (s : jsstring) :
  blank s = true -> words_from [] s = [].
Proof.
  induction s as [|c s IH]; [reflexivity|]. simpl. intros H.
  apply andb_true_iff in H. destruct H as [-> Hs]. exact (IH Hs).
Qed.

Lemma segment_words_are_words (segs : list segment) :
  Forall is_word (flat_map (fun sg => words (join_item (text sg))) segs).
Proof.
  rewrite Forall_forall. intros w Hw. apply in_flat_map in Hw.
  destruct Hw as [sg [_ Hw]].
  pose proof (words_from_words [] (join_item (text sg)) eq_refl) as Hall.
  rewrite Forall_forall in Hall. apply Hall, Hw.
Qed.

Lemma normalizeTranscript_join_words (segs : list segment) :
  normalizeTranscript segs
  = join [SP] (flat_map (fun sg => words (join_item (text sg))) segs).
Proof.
  unfold normalizeTranscript. rewrite clean_words, words_join.
  rewrite map_map, flat_map_concat_map, map_map, <- flat_map_concat_map.
  reflexivity.
Qed.

Lemma words_normalizeTranscript (segs : list segment) :
  words (normalizeTranscript segs)
  = flat_map (fun sg => words (join_item (text sg))) segs.
Proof.
  rewrite normalizeTranscript_join_words, words_join.
  apply words_of_words, segment_words_are_words.
Qed.

(** X2: the transcript is the words of the segment texts, in order,
    separated by single spaces; splitting it into words again gives the
    same words back. *)
Theorem normalizeTranscript_words (segs : list segment) :
  normalizeTranscript segs
  = join [SP] (flat_map (fun sg => words (join_item (text sg))) segs)
  /\ words (normalizeTranscript segs)
     = flat_map (fun sg => words (join_item (text sg))) segs
  /\ Forall is_word (words (normalizeTranscript segs)).
Proof.
  split; [apply normalizeTranscript_join_words|].
  split; [apply words_normalizeTranscript|].
  rewrite words_normalizeTranscript. apply segment_words_are_words.
Qed.

(** X3: how the text is cut into segments does not matter: normalizing a
    concatenation is normalizing the two normalized halves, and segments
    without a word can be dropped. *)
Theorem normalizeTranscript_segmentation (a b : list segment) :
  normalizeTranscript (a ++ b)
  = normalizeTranscript [seg (normalizeTranscript a); seg (normalizeTranscript b)]
  /\ normalizeTranscript (filter has_word a) = normalizeTranscript a.
Proof.
  split.
  - rewrite (normalizeTranscript_join_words (a ++ b)).
    rewrite (normalizeTranscript_join_words [_; _]).
    cbn [flat_map text text_prop seg join_item]. rewrite app_nil_r.
    rewrite !words_normalizeTranscript, flat_map_app. reflexivity.
  - rewrite (normalizeTranscript_join_words (filter has_word a)).
    rewrite (normalizeTranscript_join_words a). f_equal.
    induction a as [|sg a IH]; [reflexivity|]. simpl.
    destruct (has_word sg) eqn:Hw; simpl; rewrite IH; [reflexivity|].
    unfold has_word in Hw. apply negb_false_iff in Hw.
    unfold words. rewrite (words_from_blank _ Hw). reflexivity.
Qed.

(** ** Bounds *)

(** X4: the transcript sent back is never longer than the limit plus
    the four code units of the marker, and without the marker it is a
    prefix of the normalized text. *)
Theorem prepareTranscript_bounded (segs : list segment) :
  List.length (fst (prepareTranscript segs)) <= MAX_TRANSCRIPT_CHARS + 4
  /\ (exists rest,
        normalizeTranscript segs
        = (if snd (prepareTranscript segs)
           then firstn MAX_TRANSCRIPT_CHARS (fst (prepareTranscript segs))
           else fst (prepareTranscript segs)) ++ rest)
  /\ (snd (prepareTranscript segs) = true ->
      fst (prepareTranscript segs)
      = firstn MAX_TRANSCRIPT_CHARS (normalizeTranscript segs) ++ lit " ...").
Proof.
  unfold prepareTranscript. cbv zeta. cbn [fst snd].
  destruct (MAX_TRANSCRIPT_CHARS <? List.length (normalizeTranscript segs)) eqn:H.
  - apply Nat.ltb_lt in H. rewrite slice_from_zero.
    split; [|split; [|reflexivity]].
    + rewrite length_app, firstn_length_le by lia. simpl. lia.
    + exists (skipn MAX_TRANSCRIPT_CHARS (normalizeTranscript segs)).
      rewrite firstn_app, firstn_firstn, Nat.min_id.
      rewrite firstn_length_le by lia. rewrite Nat.sub_diag. simpl firstn at 2.
      rewrite app_nil_r, firstn_skipn. reflexivity.
  - apply Nat.ltb_ge in H. split; [lia|]. split; [|discriminate].
    exists []. rewrite app_nil_r. reflexivity.
Qed.

Lemma trim_head (s : jsstring) : starts_with_space (trim s) = false.
Proof.
  unfold trim. pose proof (trimStart_head s) as H.
  destruct (trimEnd_split (trimStart s)) as [ws [E _]].
  destruct (trimEnd (trimStart s)) as [|c t]; [reflexivity|].
  rewrite E in H. exact H.
Qed.

Lemma trim_idempotent (s : jsstring) : trim (trim s) = trim s.
Proof.
  unfold trim at 1. rewrite (trimStart_fixed _ (trim_head s)).
  apply trimEnd_fixed. unfold trim. apply trimEnd_tail.
Qed.

Lemma title_of_bounds (seed : jsstring) :
  nonempty (title_of seed) = true
  /\ List.length (title_of seed) <= 73
  /\ starts_with_space (title_of seed) = false
  /\ starts_with_space (rev (title_of seed)) = false.
Proof.
  unfold title_of.
  pose proof (trim_replace_normal seed) as Hn. unfold whitespace_normal in Hn.
  apply andb_true_iff in Hn. destruct Hn as [Hruns Hend].
  apply negb_true_iff in Hend.
  destruct (trim (replace_spaces seed)) as [|c t] eqn:E; cbn [nonempty].
  - repeat split; try reflexivity. vm_compute; lia.
  - rewrite <- E in *. destruct (70 <? List.length (trim (replace_spaces seed))) eqn:H.
    + pose proof (trim_length (firstn 70 (trim (replace_spaces seed)))) as Hl.
      pose proof (firstn_le_length 70 (trim (replace_spaces seed))) as Hf.
      split; [destruct (trim (firstn 70 _)); reflexivity|].
      split; [rewrite length_app; change (List.length (lit "...")) with 3; lia|].
      split.
      * apply Nat.ltb_lt in H.
        assert (Hhead : starts_with_space (c :: t) = false)
          by (rewrite <- E; apply no_runs_head, Hruns).
        destruct (trim_cut_normal 69 _ Hruns ltac:(lia)) as [-> | ->];
          rewrite E; exact Hhead.
      * rewrite rev_app_distr. reflexivity.
    + apply Nat.ltb_ge in H. rewrite E. cbn [nonempty].
      split; [reflexivity|]. split; [rewrite <- E; lia|].
      rewrite <- E. split; [apply (no_runs_head _ Hruns)|exact Hend].
Qed.

(** X5: the title is never empty, has at most 73 code units (70 and
    the ellipsis), is a single line and neither begins nor ends with white
    space. *)
Theorem buildTitle_bounds (segs : list segment) :
  exists title,
    buildTitle segs = Ok title
    /\ nonempty title = true
    /\ List.length title <= 73
    /\ no_newline title = true
    /\ trim title = title.
Proof.
  rewrite buildTitle_find. eexists. split; [reflexivity|].
  destruct (List.find _ segs) as [sg|].
  - destruct (title_of_bounds (join_item (text sg))) as (Hne & Hlen & Hs & He).
    split; [exact Hne|]. split; [exact Hlen|].
    split; [apply title_of_no_newline|].
    unfold trim. rewrite (trimStart_fixed _ Hs). apply trimEnd_fixed, He.
  - repeat split; vm_compute; try reflexivity. lia.
Qed.

(** X6: for every number of points asked for, the sampler returns at
    most that many, each of them non-empty, whitespace-normalized text of
    a window of the list; no segments give no points. *)
Theorem samplePoints_points (segs : list segment) (count : nat) :
  List.length (samplePoints segs count) <= count
  /\ Forall (fun p => nonempty p = true
                      /\ whitespace_normal p = true
                      /\ exists i, i < List.length segs /\ p = window segs i)
       (samplePoints segs count)
  /\ (segs = [] -> samplePoints segs count = []).
Proof.
  split; [rewrite samplePoints_spec, length_firstn; lia|].
  split; [|intros ->; reflexivity].
  rewrite samplePoints_spec. apply Forall_forall. intros p Hp.
  assert (Hin : In p (filter nonempty
                        (List.map (window segs)
                           (window_starts (List.length segs)
                              (Nat.max 1 (List.length segs / count))))))
    by (rewrite <- (firstn_skipn count (filter _ _)); apply in_or_app; left; exact Hp).
  apply filter_In in Hin. destruct Hin as [Hin Hne].
  apply in_map_iff in Hin. destruct Hin as [i [<- Hi]].
  split; [exact Hne|]. split; [apply trim_replace_normal|].
  exists i. split; [|reflexivity].
  pose proof (window_starts_below (List.length segs)
                (Nat.max 1 (List.length segs / count)) ltac:(lia)) as Hb.
  rewrite Forall_forall in Hb. apply Hb, Hi.
Qed.

(** ** The length choice *)

Lemma toLowerCase_idempotent (s : jsstring) :
  toLowerCase (toLowerCase s) = toLowerCase s.
Proof.
  unfold toLowerCase. rewrite map_map. apply map_ext. intros c.
  destruct ((65 <=? c) && (c <=? 90))%N eqn:H; [|rewrite H; reflexivity].
  apply andb_true_iff in H. destruct H as [H1 H2].
  apply N.leb_le in H1, H2.
  replace (c + 32 <=? 90)%N with false by (symmetry; apply N.leb_gt; lia).
  rewrite andb_false_r. reflexivity.
Qed.

(** X7: the length choice is read without regard to ASCII case; a
    missing or falsy choice, and every string that lower-cases to none of
    [short], [long], [constructor], [__proto__], gives medium's
    ["600-900 words"]; the call returns for every value [String] can
    convert. *)
Theorem lengthSpecFromChoice_choices (choice : jsval) (s : jsstring) :
  (truthy choice = false ->
   lengthSpecFromChoice choice = Ok (lit "600-900 words"))
  /\ lengthSpecFromChoice (JStr (toLowerCase s)) = lengthSpecFromChoice (JStr s)
  /\ (toLowerCase s = lit "short" ->
      lengthSpecFromChoice (JStr s) = Ok (lit "300-450 words"))
  /\ (toLowerCase s = lit "medium" ->
      lengthSpecFromChoice (JStr s) = Ok (lit "600-900 words"))
  /\ (toLowerCase s = lit "long" ->
      lengthSpecFromChoice (JStr s) = Ok (lit "1000-1400 words"))
  /\ (~ In (toLowerCase s)
          [lit "short"; lit "long"; lit "constructor"; lit "__proto__"] ->
      lengthSpecFromChoice (JStr s) = Ok (lit "600-900 words"))
  /\ (stringifiable choice = true ->
      exists spec, lengthSpecFromChoice choice = Ok spec).
Proof.
  assert (Hstr : forall t,
             lengthSpecFromChoice (JStr t)
             = match lengthMap (toLowerCase t) with
               | Some spec => Ok spec
               | None => Ok (lit "600-900 words")
               end).
  { intros t. unfold lengthSpecFromChoice. cbn [truthy].
    destruct t; reflexivity. }
  split.
  { intros H. unfold lengthSpecFromChoice. rewrite H. reflexivity. }
  split; [rewrite !Hstr, toLowerCase_idempotent; reflexivity|].
  split; [intros E; rewrite Hstr, E; reflexivity|].
  split; [intros E; rewrite Hstr, E; reflexivity|].
  split; [intros E; rewrite Hstr, E; reflexivity|].
  split.
  - intros Hnot. rewrite Hstr. unfold lengthMap.
    assert (Hne : forall k, In k [lit "short"; lit "long"; lit "constructor";
                                  lit "__proto__"] ->
                            JS.eqb (toLowerCase s) k = false).
    { intros k Hk. unfold JS.eqb.
      destruct (list_eq_dec N.eq_dec (toLowerCase s) k) as [E|]; [|reflexivity].
      subst k. contradiction. }
    rewrite (Hne (lit "short")), (Hne (lit "long")), (Hne (lit "constructor")),
      (Hne (lit "__proto__")) by (simpl; tauto).
    destruct (JS.eqb (toLowerCase s) (lit "medium")); reflexivity.
  - intros H. destruct (lengthSpecFromChoice_returns choice H) as [spec [E _]].
    exists spec; exact E.
Qed.

(** ** The size of the style descriptor *)

Lemma clampText_length (v : jsval) (n : nat) (s : jsstring) :
  clampText v n = Ok s -> List.length s <= n.
Proof.
  unfold clampText. destruct (truthy v); cbn [negb].
  - destruct (ToString v) as [t|e]; cbn [rbind]; [|discriminate].
    intros [= <-]. rewrite slice_from_zero. apply firstn_le_length.
  - intros [= <-]. simpl. lia.
Qed.

(** X8: whatever the three inputs are, a style descriptor that is
    returned is a single line of at most 803 code units: 240 and 500 for
    the preset and the detail, 57 for the language part, 6 for the two
    delimiters. *)
Theorem buildStyleDescriptor_bounded (stylePreset styleDetail language : jsval)
  (descriptor : jsstring) :
  buildStyleDescriptor stylePreset styleDetail language = Ok descriptor ->
  List.length descriptor <= 803 /\ no_newline descriptor = true.
Proof.
  unfold buildStyleDescriptor.
  destruct (clampText stylePreset STYLE_LIMIT) as [p|] eqn:Ep; [|discriminate].
  destruct (clampText styleDetail DETAIL_LIMIT) as [d|] eqn:Ed; [|discriminate].
  destruct (clampText language 40) as [l|] eqn:El; [|discriminate].
  cbn [rbind]. intros [= <-].
  pose proof (clampText_length _ _ _ Ep) as Lp.
  pose proof (clampText_length _ _ _ Ed) as Ld.
  pose proof (clampText_length _ _ _ El) as Ll.
  pose proof (clampText_no_newline _ _ _ Ep) as Np.
  pose proof (clampText_no_newline _ _ _ Ed) as Nd.
  pose proof (clampText_no_newline _ _ _ El) as Nl.
  unfold STYLE_LIMIT, DETAIL_LIMIT in *.
  split.
  - destruct (nonempty p), (nonempty d),
      (nonempty l && negb (JS.eqb l (lit "auto")));
      cbn [app join]; rewrite ?length_app;
      change (List.length (lit " | ")) with 3;
      change (List.length (lit "Output language: ")) with 17;
      cbn [List.length]; lia.
  - apply no_newline_join; [reflexivity|].
    destruct (nonempty p), (nonempty d),
      (nonempty l && negb (JS.eqb l (lit "auto")));
      repeat first [apply Forall_nil | apply Forall_cons | apply Forall_app; split];
      try assumption; try (apply no_newline_app; [reflexivity|assumption]).
Qed.

Lemma buildStyleDescriptor_bounded_witness :
  List.length (lit "formal tone | Output language: French") <= 803
  /\ no_newline (lit "formal tone | Output language: French") = true.
Proof.
  apply (buildStyleDescriptor_bounded (JStr (lit " formal  tone")) JUndefined
           (JStr (lit "French"))).
  vm_compute. reflexivity.
Defined.

(** ** The extractor and what surrounds a link *)

Lemma trimStart_app (s b : jsstring) :
  trimStart (s ++ b)
  = if nonempty (trimStart s) then trimStart s ++ b else trimStart b.
Proof.
  induction s as [|c s IH]; simpl.
  - destruct (trimStart b); reflexivity.
  - destruct (is_space c); [exact IH|reflexivity].
Qed.

Lemma trimEnd_blank_app (y b : jsstring) :
  blank b = true -> trimEnd (y ++ b) = trimEnd y.
Proof.
  intros Hb. rewrite !trimEnd_rev, rev_app_distr.
  rewrite trimStart_blank_app by (apply forallb_rev, Hb). reflexivity.
Qed.

Lemma trim_padding (a s b : jsstring) :
  blank a = true -> blank b = true -> trim (a ++ s ++ b) = trim s.
Proof.
  intros Ha Hb. unfold trim.
  rewrite (trimStart_blank_app a _ Ha), trimStart_app.
  destruct (trimStart s) as [|c t] eqn:E; cbn [nonempty].
  - rewrite (trimStart_blank b Hb). reflexivity.
  - apply trimEnd_blank_app, Hb.
Qed.

(** X9: white space around the input does not matter: the extractor
    gives the same answer with and without it. *)
Theorem extractVideoId_ignores_padding (URL_new : jsstring -> result URL)
  (before input after : jsstring) :
  blank before = true -> blank after = true ->
  extractVideoId URL_new (before ++ input ++ after)
  = extractVideoId URL_new input.
Proof.
  intros Hb Ha. unfold extractVideoId.
  rewrite (trim_padding before input after Hb Ha). reflexivity.
Qed.

Lemma extractVideoId_ignores_padding_witness :
  extractVideoId Whatwg.URL_basic
    (lit "  " ++ lit "https://youtu.be/abc123xy" ++ [LF])
  = extractVideoId Whatwg.URL_basic (lit "https://youtu.be/abc123xy").
Proof.
  apply (extractVideoId_ignores_padding Whatwg.URL_basic (lit "  ")
           (lit "https://youtu.be/abc123xy") [LF]); reflexivity.
Defined.

(** ** Links pasted without a scheme *)

Lemma exec_skip (c : code_unit) (s : jsstring) :
  token_after id_prefixes (c :: s) = None ->
  exec fallback_pattern (c :: s) = exec fallback_pattern s.
Proof.
  intros H. rewrite exec_unfold, run_fallback_pattern, H. reflexivity.
Qed.

Lemma exec_hit (s token : jsstring) :
  token_after id_prefixes s = Some token ->
  exec fallback_pattern s = Some [token].
Proof.
  intros H. rewrite exec_unfold, run_fallback_pattern, H. reflexivity.
Qed.

Lemma token_after_hit (prefixes : list jsstring) (p rest : jsstring) :
  In p prefixes ->
  (forall q, In q prefixes -> q <> p -> strip_prefix q (p ++ rest) = None) ->
  6 <= run_length is_id_char rest ->
  token_after prefixes (p ++ rest)
  = Some (firstn (run_length is_id_char rest) rest).
Proof.
  intros Hin Hothers H6. apply Nat.leb_le in H6.
  induction prefixes as [|q prefixes IH]; [destruct Hin|].
  cbn [token_after].
  destruct (list_eq_dec N.eq_dec q p) as [->|Hq].
  - rewrite strip_prefix_app, H6. reflexivity.
  - rewrite (Hothers q (or_introl eq_refl) Hq). apply IH.
    + destruct Hin as [E|Hin]; [congruence|exact Hin].
    + intros q' Hq'. apply Hothers. right; exact Hq'.
Qed.

Lemma id_then_extra (id extra : jsstring) :
  forallb is_id_char id = true -> valid_extra extra = true ->
  run_length is_id_char (id ++ extra) = List.length id
  /\ firstn (List.length id) (id ++ extra) = id.
Proof.
  intros Hid Hextra. split.
  - induction id as [|c id IH]; simpl.
    + destruct extra as [|e rest]; [reflexivity|]. simpl in Hextra.
      apply andb_true_iff in Hextra. destruct Hextra as [He _].
      apply N.eqb_eq in He. subst e. reflexivity.
    + simpl in Hid. apply andb_true_iff in Hid. destruct Hid as [-> Hid].
      rewrite (IH Hid). reflexivity.
  - rewrite firstn_app, Nat.sub_diag, firstn_all. simpl. apply app_nil_r.
Qed.

Lemma pasted_link_visible (shape : url_shape) (id : jsstring) :
  valid_id id = true -> valid_shape shape = true ->
  forallb is_visible (pasted_link shape id) = true.
Proof.
  intros Hid Hshape.
  pose proof (youtube_url_visible Https shape id Hid Hshape) as H.
  rewrite youtube_url_components, forallb_app in H.
  apply andb_true_iff in H. apply H.
Qed.

Lemma exec_pasted_link (shape : url_shape) (id : jsstring) :
  valid_id id = true -> 6 <= List.length id -> valid_shape shape = true ->
  exec fallback_pattern (pasted_link shape id) = Some [id].
Proof.
  intros Hid H6 Hshape. destruct (valid_id_facts id Hid) as (c & t & _ & Hall).
  assert (Hothers : forall p rest,
             In p id_prefixes ->
             (forall q, In q id_prefixes -> q <> p ->
                        strip_prefix q (p ++ rest) = None) ->
             forall extra, rest = id ++ extra -> valid_extra extra = true ->
             exec fallback_pattern (p ++ rest) = Some [id]).
  { intros p rest Hin Hq extra -> Hextra.
    destruct (id_then_extra id extra Hall Hextra) as [Hrun Hfirst].
    rewrite (exec_hit _ _ (token_after_hit id_prefixes p (id ++ extra) Hin Hq
                             ltac:(rewrite Hrun; exact H6))).
    rewrite Hrun, Hfirst. reflexivity. }
  unfold pasted_link.
  destruct shape as [[|]|[| | |] extra|[| | |] [| |]];
    cbn -[exec fallback_pattern];
    repeat (rewrite exec_skip by reflexivity);
    match goal with
    | |- exec fallback_pattern ?s = _ =>
        first
          [ change s with (lit "youtu.be/" ++ (id ++ []))
          | change s with (lit "v=" ++ (id ++ extra))
          | change s with (lit "/shorts/" ++ (id ++ []))
          | change s with (lit "/live/" ++ (id ++ []))
          | change s with (lit "/embed/" ++ (id ++ [])) ]
    end;
    (eapply Hothers;
     [ simpl; tauto
     | intros q Hq Hne; simpl in Hq;
       repeat (destruct Hq as [<-|Hq]; [try reflexivity; congruence|]);
       destruct Hq
     | reflexivity
     | first [exact Hshape | reflexivity] ]).
Qed.

Lemma pasted_link_no_scheme (shape : url_shape) (id : jsstring) :
  valid_id id = true -> valid_shape shape = true ->
  Whatwg.URL_model (pasted_link shape id) = Some (Throw TypeError).
Proof.
  intros Hid Hshape. unfold Whatwg.URL_model.
  rewrite (preprocess_visible _ (pasted_link_visible shape id Hid Hshape)).
  replace (Whatwg.has_scheme (pasted_link shape id)) with false; [reflexivity|].
  destruct shape as [[|]|[| | |] extra|[| | |] [| |]]; reflexivity.
Qed.

(** X10: a link pasted without its scheme ([youtu.be/<id>],
    [www.youtube.com/watch?v=<id>], [youtube.com/shorts/<id>], ...) does
    not parse as a URL, and the fallback pattern still finds the id when
    it has six or more characters. *)
Theorem extractVideoId_without_scheme (URL_new : jsstring -> result URL)
  (shape : url_shape) (id : jsstring) :
  Whatwg.conforms URL_new ->
  valid_id id = true -> 6 <= List.length id ->
  valid_shape shape = true ->
  URL_new (pasted_link shape id) = Throw TypeError
  /\ extractVideoId URL_new (pasted_link shape id) = Ok (JStr id).
Proof.
  intros Hconf Hid H6 Hshape.
  pose proof (Hconf _ _ (pasted_link_no_scheme shape id Hid Hshape)) as Hthrow.
  split; [exact Hthrow|].
  unfold extractVideoId.
  rewrite (trim_visible _ (pasted_link_visible shape id Hid Hshape)).
  unfold extractVideoId_try. rewrite Hthrow. cbn [rbind].
  rewrite (exec_pasted_link shape id Hid H6 Hshape). reflexivity.
Qed.

Lemma extractVideoId_without_scheme_witness :
  extractVideoId Whatwg.URL_basic (lit "www.youtube.com/watch?v=dQw4w9WgXcQ&t=42")
  = Ok (JStr (lit "dQw4w9WgXcQ")).
Proof.
  apply (extractVideoId_without_scheme Whatwg.URL_basic
           (Watch Www (lit "&t=42")) (lit "dQw4w9WgXcQ")).
  - exact URL_basic_conforms.
  - reflexivity.
  - vm_compute. lia.
  - reflexivity.
Defined.

(** ** The language-model call and the dispatcher, any request *)

Lemma ToString_throws :
  forall v e, ToString v = Throw e -> e = TypeError.
Proof.
  fix IH 1. intros [| |[|]|t sh|s|items|props] e; simpl; intros H;
    try discriminate.
  - induction items as [|x rest IHrest]; [discriminate|].
    destruct (match x with
              | JUndefined | JNull => Ok []
              | _ => ToString x
              end) as [a|e'] eqn:Ha.
    + cbn [rbind] in H.
      match type of H with
      | context [rbind (?J rest) _] => destruct (J rest) as [b|e''] eqn:Hb
      end.
      * destruct rest; discriminate H.
      * destruct rest; [discriminate H|].
        cbn [rbind] in H. injection H as <-. exact (IHrest eq_refl).
    + cbn [rbind] in H. injection H as <-.
      assert (Hx : ToString x = Throw e').
      { clear IH IHrest. destruct x; try discriminate; exact Ha. }
      exact (IH x e' Hx).
  - destruct (has_own _ props); [injection H as <-; reflexivity|discriminate].
Qed.

Lemma clampText_throws (v : jsval) (n : nat) (e : exn) :
  clampText v n = Throw e -> e = TypeError /\ stringifiable v = false.
Proof.
  intros H. split.
  - unfold clampText in H. destruct (truthy v); cbn [negb] in H; [|discriminate].
    destruct (ToString v) as [s|e'] eqn:Hs; [discriminate|].
    cbn [rbind] in H. injection H as <-. exact (ToString_throws v e' Hs).
  - destruct (stringifiable v) eqn:Hv; [|reflexivity].
    destruct (clampText_returns v n Hv) as (s & _ & Hc). congruence.
Qed.

Lemma buildStyleDescriptor_throws (p d l : jsval) (e : exn) :
  buildStyleDescriptor p d l = Throw e ->
  e = TypeError
  /\ (stringifiable p = false \/ stringifiable d = false
      \/ stringifiable l = false).
Proof.
  unfold buildStyleDescriptor. intros H.
  destruct (clampText p STYLE_LIMIT) as [sp|e1] eqn:Hp.
  - destruct (clampText d DETAIL_LIMIT) as [sd|e2] eqn:Hd.
    + destruct (clampText l 40) as [sl|e3] eqn:Hl.
      * cbn [rbind] in H. discriminate.
      * cbn [rbind] in H. injection H as <-.
        destruct (clampText_throws _ _ _ Hl). tauto.
    + cbn [rbind] in H. injection H as <-.
      destruct (clampText_throws _ _ _ Hd). tauto.
  - cbn [rbind] in H. injection H as <-.
    destruct (clampText_throws _ _ _ Hp). tauto.
Qed.

Lemma lengthSpecFromChoice_throws (choice : jsval) (e : exn) :
  lengthSpecFromChoice choice = Throw e ->
  e = TypeError /\ stringifiable choice = false.
Proof.
  intros H. split.
  - unfold lengthSpecFromChoice in H.
    destruct (ToString (if truthy choice then choice else JStr [])) as [s|e'] eqn:Hs.
    + cbn [rbind] in H. destruct (lengthMap (toLowerCase s)); discriminate.
    + cbn [rbind] in H. injection H as <-. exact (ToString_throws _ _ Hs).
  - destruct (stringifiable choice) eqn:Hv; [|reflexivity].
    destruct (lengthSpecFromChoice_returns choice Hv) as (s & Hc & _). congruence.
Qed.

Lemma call_trim_trimmed (v : jsval) (text : jsstring) :
  call_trim v = Ok text -> trim text = text.
Proof.
  destruct v; try discriminate. simpl. intros H. injection H as <-.
  apply trim_idempotent.
Qed.

(** X11: the language model is asked exactly once per call, with a
    request that always names a model.  The text handed back has no white
    space at either end; a missing or empty [output_text] gives the empty
    text, an [output_text] that is not a string makes the call fail, and
    a failure of the model is passed on. *)
Theorem generateWithOpenAI_once (w : World) (tr sd ls : jsstring)
  (trunc : bool) (log : list event) :
  let request := openai_request w tr sd ls trunc in
  exists r,
    generateWithOpenAI w tr sd ls trunc log
    = (r, log ++ [ResponsesCreate request])
    /\ nonempty (model request) = true
    /\ (forall text, r = Ok text -> trim text = text)
    /\ (forall e, responses_create w request = Throw e -> r = Throw e)
    /\ (forall resp,
          responses_create w request = Ok resp ->
          match output_text resp with
          | JStr s => r = Ok (trim s)
          | v => if truthy v then r = Throw TypeError else r = Ok []
          end).
Proof.
  intros request. eexists. split; [apply generateWithOpenAI_run|].
  fold request. split; [|split; [|split]].
  - unfold request, openai_request. cbn [model].
    destruct (OPENAI_MODEL w) as [[|c m]|]; reflexivity.
  - intros text H. destruct (responses_create w request) as [resp|e];
      [|discriminate].
    cbn [rbind] in H. exact (call_trim_trimmed _ _ H).
  - intros e ->. reflexivity.
  - intros resp ->. cbn [rbind].
    destruct (output_text resp) as [| |[|]|[|] sh|[|c s]|items|props];
      reflexivity.
Qed.

Lemma generateArticle_run (w : World) (req : GenerationRequest)
  (log : list event) (sd ls fallback_text : jsstring) :
  buildStyleDescriptor (stylePreset req) (styleDetail req) (language req)
  = Ok sd ->
  lengthSpecFromChoice (length req) = Ok ls ->
  ruleBasedArticle (segments req) sd ls (truncated req) = Ok fallback_text ->
  generateArticle w req log
  = if env_truthy (OPENAI_API_KEY w)
    then match generateWithOpenAI w (transcript req) sd ls (truncated req) log with
         | (Ok [], log1) =>
             (Ok {| article_text := fallback_text; mode := lit "fallback" |}, log1)
         | (Ok text, log1) =>
             (Ok {| article_text := text; mode := lit "openai" |}, log1)
         | (Throw e, log1) =>
             (Ok {| article_text := fallback_text; mode := lit "fallback" |},
              log1 ++ [ConsoleError (lit "OpenAI generation failed:") e])
         end
    else (Ok {| article_text := fallback_text; mode := lit "fallback" |}, log).
Proof.
  intros Hsd Hls Hfb. unfold generateArticle.
  rewrite Hsd, Hls. unfold bind at 1 2. unfold lift at 1 2.
  destruct (env_truthy (OPENAI_API_KEY w)).
  - unfold bind at 1. unfold try_catch. unfold bind at 1.
    destruct (generateWithOpenAI w (transcript req) sd ls (truncated req) log)
      as [[[|c t]|e] log1].
    + cbn. rewrite Hfb. reflexivity.
    + cbn. reflexivity.
    + cbn. rewrite Hfb. reflexivity.
  - cbn. rewrite Hfb. reflexivity.
Qed.

Lemma generateArticle_outcomes (w : World) (req : GenerationRequest)
  (log : list event) :
  ((stringifiable (stylePreset req) = false
    \/ stringifiable (styleDetail req) = false
    \/ stringifiable (language req) = false
    \/ stringifiable (length req) = false)
   /\ generateArticle w req log = (Throw TypeError, log))
  \/ exists sd ls fb,
      buildStyleDescriptor (stylePreset req) (styleDetail req) (language req)
      = Ok sd
      /\ lengthSpecFromChoice (length req) = Ok ls
      /\ ruleBasedArticle (segments req) sd ls (truncated req) = Ok fb
      /\ let fallback := {| article_text := fb; mode := lit "fallback" |} in
         let p := openai_request w (transcript req) sd ls (truncated req) in
         (env_truthy (OPENAI_API_KEY w) = false
          /\ generateArticle w req log = (Ok fallback, log))
         \/ (env_truthy (OPENAI_API_KEY w) = true
             /\ ((exists text,
                     nonempty text = true /\ trim text = text
                     /\ generateArticle w req log
                        = (Ok {| article_text := text; mode := lit "openai" |},
                           log ++ [ResponsesCreate p]))
                 \/ generateArticle w req log
                    = (Ok fallback, log ++ [ResponsesCreate p])
                 \/ exists e,
                     generateArticle w req log
                     = (Ok fallback,
                        log ++ [ResponsesCreate p;
                                ConsoleError (lit "OpenAI generation failed:") e]))).
Proof.
  destruct (buildStyleDescriptor (stylePreset req) (styleDetail req)
              (language req)) as [sd|e] eqn:Hsd.
  2:{ left. destruct (buildStyleDescriptor_throws _ _ _ _ Hsd) as [-> Hwhy].
      split; [tauto|]. unfold generateArticle. rewrite Hsd. reflexivity. }
  destruct (lengthSpecFromChoice (length req)) as [ls|e] eqn:Hls.
  2:{ left. destruct (lengthSpecFromChoice_throws _ _ Hls) as [-> Hwhy].
      split; [tauto|]. unfold generateArticle. rewrite Hsd, Hls. reflexivity. }
  right. destruct (ruleBasedArticle_returns (segments req) sd ls (truncated req))
    as [fb Hfb].
  exists sd, ls, fb. split; [reflexivity|]. split; [reflexivity|].
  split; [exact Hfb|]. intros fallback p.
  rewrite (generateArticle_run w req log sd ls fb Hsd Hls Hfb).
  destruct (env_truthy (OPENAI_API_KEY w)); [right|left]; (split; [reflexivity|]).
  - rewrite generateWithOpenAI_run. fold p.
    destruct (resp <- responses_create w p ;;
              call_trim (if truthy (output_text resp) then output_text resp
                         else JStr [])) as [[|c t]|e] eqn:Hrun.
    + right; left. reflexivity.
    + left. exists (c :: t). split; [reflexivity|]. split; [|reflexivity].
      destruct (responses_create w p) as [resp|e]; [|discriminate].
      cbn [rbind] in Hrun. exact (call_trim_trimmed _ _ Hrun).
    + right; right. exists e. rewrite <- app_assoc. reflexivity.
  - reflexivity.
Qed.

(** X12: the dispatcher fails only when a style field or the length
    choice cannot be converted to a string, with a TypeError and before
    anything is called.  Otherwise it returns; what it does is nothing
    (no key), one model call, or one model call and one line in the error
    log; and an article marked ["openai"] is never empty and has no white
    space at either end. *)
Theorem generateArticle_any_request (w : World) (req : GenerationRequest)
  (log : list event) :
  exists r did,
    generateArticle w req log = (r, log ++ did)
    /\ (forall e, r = Throw e ->
          e = TypeError /\ did = []
          /\ (stringifiable (stylePreset req) && stringifiable (styleDetail req)
              && stringifiable (language req) && stringifiable (length req)
              = false))
    /\ (stringifiable (stylePreset req) && stringifiable (styleDetail req)
        && stringifiable (language req) && stringifiable (length req) = true ->
        exists res, r = Ok res)
    /\ (env_truthy (OPENAI_API_KEY w) = false -> did = [])
    /\ (did = []
        \/ (exists p, did = [ResponsesCreate p])
        \/ (exists p e,
               did = [ResponsesCreate p;
                      ConsoleError (lit "OpenAI generation failed:") e]))
    /\ (forall res, r = Ok res ->
          (mode res = lit "openai" \/ mode res = lit "fallback")
          /\ (mode res = lit "openai" ->
              nonempty (article_text res) = true
              /\ trim (article_text res) = article_text res
              /\ exists p, did = [ResponsesCreate p])).
Proof.
  assert (Hdiff : lit "fallback" <> lit "openai") by discriminate.
  destruct (generateArticle_outcomes w req log)
    as [[Hwhy Hrun]
       |(sd & ls & fb & Hsd & Hls & Hfb &
         [[Hkey Hrun]|[Hkey [(text & Hne & Htrim & Hrun)|[Hrun|[e Hrun]]]]])].
  - exists (Throw TypeError), []. rewrite app_nil_r.
    split; [exact Hrun|]. split; [|split; [|split; [|split]]].
    + intros e H. injection H as <-. split; [reflexivity|]. split; [reflexivity|].
      destruct Hwhy as [E|[E|[E|E]]]; rewrite E, ?andb_false_r; reflexivity.
    + intros H. exfalso.
      destruct Hwhy as [E|[E|[E|E]]]; rewrite E, ?andb_false_r in H;
        discriminate.
    + reflexivity.
    + left; reflexivity.
    + discriminate.
  - eexists; exists []. rewrite app_nil_r.
    split; [exact Hrun|]. split; [discriminate|]. split; [eexists; reflexivity|].
    split; [reflexivity|]. split; [left; reflexivity|].
    intros res H. injection H as <-. cbn [mode]. split; [right; reflexivity|].
    intros H. congruence.
  - eexists; eexists. split; [exact Hrun|]. split; [discriminate|].
    split; [eexists; reflexivity|]. split; [congruence|].
    split; [right; left; eexists; reflexivity|].
    intros res H. injection H as <-. cbn [mode article_text].
    split; [left; reflexivity|]. intros _. split; [exact Hne|].
    split; [exact Htrim|eexists; reflexivity].
  - eexists; eexists. split; [exact Hrun|]. split; [discriminate|].
    split; [eexists; reflexivity|]. split; [congruence|].
    split; [right; left; eexists; reflexivity|].
    intros res H. injection H as <-. cbn [mode]. split; [right; reflexivity|].
    intros H. congruence.
  - eexists; eexists. split; [exact Hrun|]. split; [discriminate|].
    split; [eexists; reflexivity|]. split; [congruence|].
    split; [right; right; eexists; eexists; reflexivity|].
    intros res H. injection H as <-. cbn [mode]. split; [right; reflexivity|].
    intros H. congruence.
Qed.

(** ** The handler, any body *)

Lemma extractVideoId_total (URL_new : jsstring -> result URL) (s : jsstring) :
  extractVideoId URL_new s = Ok JNull
  \/ exists id, extractVideoId URL_new s = Ok (JStr id).
Proof.
  unfold extractVideoId.
  destruct (extractVideoId_try URL_new (trim s)) as [[id|]|e];
    try (right; eexists; reflexivity);
    destruct (exec fallback_pattern (trim s));
    try (right; eexists; reflexivity); left; reflexivity.
Qed.

Lemma api_generate_outcomes (w : World) (b : body) (log : list event) :
  ((forall u, url b = JStr u -> u = [])
   /\ api_generate w b log
      = (Ok (error_answer 400 "Please provide a YouTube URL."), log))
  \/ exists u,
      url b = JStr u /\ nonempty u = true
      /\ (((extractVideoId (URL_new w) u = Ok JNull
            \/ extractVideoId (URL_new w) u = Ok (JStr []))
           /\ api_generate w b log
              = (Ok (error_answer 400 "Unable to parse the YouTube video ID."),
                 log))
          \/ exists id,
              extractVideoId (URL_new w) u = Ok (JStr id)
              /\ nonempty id = true
              /\ ((exists e,
                      fetchTranscript w id = Throw e
                      /\ api_generate w b log
                         = (Ok (error_answer 502
                                  "Failed to fetch the transcript. Check if captions are available."),
                            log ++ [FetchTranscript id;
                                    ConsoleError (lit "Transcript fetch failed:") e]))
                  \/ ((fetchTranscript w id = Ok None
                       \/ fetchTranscript w id = Ok (Some []))
                      /\ api_generate w b log
                         = (Ok (error_answer 404
                                  "No transcript found for this video."),
                            log ++ [FetchTranscript id]))
                  \/ exists sg segs,
                      fetchTranscript w id = Ok (Some (sg :: segs))
                      /\ api_generate w b log
                         = match generateArticle w (request_of b (sg :: segs))
                                   (log ++ [FetchTranscript id]) with
                           | (Ok r, log') =>
                               (Ok {| status := 200;
                                      json := ResultJson id
                                        (fst (prepareTranscript (sg :: segs)))
                                        (snd (prepareTranscript (sg :: segs)))
                                        (article_text r) (mode r) |}, log')
                           | (Throw e, log') =>
                               (Ok (error_answer 500 "Failed to generate article."),
                                log' ++ [ConsoleError
                                           (lit "Article generation failed:") e])
                           end)).
Proof.
  unfold api_generate.
  destruct (url b) as [| |?|? ?|[|c u]|?|?] eqn:Hurl;
    try (left; split; [intros ? ?; discriminate|reflexivity]).
  { left. split; [intros ? H; injection H as <-; reflexivity|reflexivity]. }
  right. exists (c :: u). split; [reflexivity|]. split; [reflexivity|].
  cbn [nonempty negb]. unfold bind at 1. unfold lift at 1.
  destruct (extractVideoId_total (URL_new w) (c :: u)) as [E|[[|c' id] E]];
    rewrite E.
  { left. split; [left; reflexivity|reflexivity]. }
  { left. split; [right; reflexivity|reflexivity]. }
  right. exists (c' :: id). split; [reflexivity|]. split; [reflexivity|].
  unfold try_catch, bind, emit, lift, ret. cbv beta iota delta [negb nonempty].
  destruct (fetchTranscript w (c' :: id)) as [[[|sg segs]|]|e].
  - right; left. split; [right; reflexivity|reflexivity].
  - right; right. exists sg, segs. split; [reflexivity|].
    unfold request_of.
    destruct (prepareTranscript (sg :: segs)) as [tr trunc]. cbv beta iota delta [fst snd].
    destruct (generateArticle w _ _) as [[r|e] log']; reflexivity.
  - right; left. split; [left; reflexivity|reflexivity].
  - left. exists e. split; [reflexivity|].
    rewrite <- app_assoc. reflexivity.
Qed.

Lemma ruleBasedArticle_nonempty (segs : list segment) (sd ls : jsstring)
  (trunc : bool) (article : jsstring) :
  ruleBasedArticle segs sd ls trunc = Ok article -> nonempty article = true.
Proof.
  unfold ruleBasedArticle. destruct (buildTitle segs) as [title|e];
    [|discriminate].
  cbn [rbind]. intros H. injection H as <-. reflexivity.
Qed.

Ltac handler_cases w b log :=
  let Hrun := fresh "Hrun" in
  destruct (api_generate_outcomes w b log)
    as [[Hno Hrun]
       |(u & Hurl & Hu &
         [[Hid Hrun]
         |(id & Hid & Hnid &
           [(e & Hfetch & Hrun)
           |[[Hfetch Hrun]
            |(sg & segs & Hfetch & Hrun)]])])];
  [ | | |
  | destruct (generateArticle_outcomes w (request_of b (sg :: segs))
                (log ++ [FetchTranscript id]))
      as [[Hwhy Hgen]
         |(sd & ls & fb & Hsd & Hls & Hfb &
           [[Hkey Hgen]
           |[Hkey [(text & Hne & Htrim & Hgen)|[Hgen|[e Hgen]]]]])];
    rewrite Hgen in Hrun; rewrite <- ?app_assoc in Hrun;
    cbn [app request_of stylePreset styleDetail language length segments
           truncated transcript article_text mode] in * ];
  eexists; eexists; (split; [exact Hrun|]);
  cbn [status json error_answer].

(** X13: the handler always answers, with one of five error messages
    under its status code or with a result under status 200.  A result
    carries the id read from the URL, the prepared transcript of the
    segments fetched for that id with its truncation flag, a non-empty
    article and one of the two modes. *)
Theorem api_generate_answers (w : World) (b : body) (log : list event) :
  exists resp log',
    api_generate w b log = (Ok resp, log')
    /\ match json resp with
       | ErrorJson message =>
           In (status resp, message)
             [ (400, lit "Please provide a YouTube URL.");
               (400, lit "Unable to parse the YouTube video ID.");
               (502, lit "Failed to fetch the transcript. Check if captions are available.");
               (404, lit "No transcript found for this video.");
               (500, lit "Failed to generate article.") ]
       | ResultJson videoId transcript truncated article mode =>
           status resp = 200
           /\ nonempty videoId = true
           /\ (exists u,
                  url b = JStr u
                  /\ extractVideoId (URL_new w) u = Ok (JStr videoId))
           /\ (exists segs,
                  fetchTranscript w videoId = Ok (Some segs)
                  /\ segs <> []
                  /\ prepareTranscript segs = (transcript, truncated))
           /\ nonempty article = true
           /\ (mode = lit "openai" \/ mode = lit "fallback")
       end.
Proof.
  handler_cases w b log;
    try (simpl; tauto);
    (split; [reflexivity|]); (split; [exact Hnid|]);
    (split; [exists u; split; assumption|]);
    (split; [exists (sg :: segs); split; [exact Hfetch|];
             split; [discriminate|];
             destruct (prepareTranscript (sg :: segs)); reflexivity|]).
  - split; [exact (ruleBasedArticle_nonempty _ _ _ _ _ Hfb)|right; reflexivity].
  - split; [exact Hne|left; reflexivity].
  - split; [exact (ruleBasedArticle_nonempty _ _ _ _ _ Hfb)|right; reflexivity].
  - split; [exact (ruleBasedArticle_nonempty _ _ _ _ _ Hfb)|right; reflexivity].
Qed.

Lemma generateArticle_logged (w : World) (req : GenerationRequest)
  (log did : list event) (sd ls : jsstring) (res : GenerationResult) :
  buildStyleDescriptor (stylePreset req) (styleDetail req) (language req)
  = Ok sd ->
  lengthSpecFromChoice (length req) = Ok ls ->
  env_truthy (OPENAI_API_KEY w) = true ->
  generateArticle w req log = (Ok res, log ++ did) ->
  let p := openai_request w (transcript req) sd ls (truncated req) in
  match fst (generateWithOpenAI w (transcript req) sd ls (truncated req) log)
  with
  | Ok _ => did = [ResponsesCreate p]
  | Throw e =>
      did = [ResponsesCreate p; ConsoleError (lit "OpenAI generation failed:") e]
  end.
Proof.
  intros Hsd Hls Hkey Hgen p.
  destruct (ruleBasedArticle_returns (segments req) sd ls (truncated req))
    as [fb Hfb].
  rewrite (generateArticle_run w req log sd ls fb Hsd Hls Hfb), Hkey in Hgen.
  rewrite generateWithOpenAI_run in *. fold p in Hgen |- *. cbn [fst].
  destruct (resp <- responses_create w p ;;
            call_trim (if truthy (output_text resp) then output_text resp
                       else JStr [])) as [[|c t]|e];
    injection Hgen as _ Hlog; rewrite <- ?app_assoc in Hlog;
    apply app_inv_head in Hlog; symmetry; exact Hlog.
Qed.

Lemma generateWithOpenAI_failure (w : World) (tr sd ls : jsstring)
  (trunc : bool) (log : list event) (e : exn) :
  responses_create w (openai_request w tr sd ls trunc) = Throw e ->
  fst (generateWithOpenAI w tr sd ls trunc log) = Throw e.
Proof. intros H. rewrite generateWithOpenAI_run, H. reflexivity. Qed.

(** X14: what one request does.  Status 400 is answered without calling
    anything.  Otherwise the transcript service is asked once, first, for
    the id read from the URL.  After that: 404 does nothing more, 502 logs
    the failure of the fetch, 500 logs a TypeError and the language model
    has not been called, 200 has called the model at most once (never
    without a key).  With a key, the request made is the one built from
    the prepared transcript, the style descriptor and the length
    statement; nothing follows it when [generateWithOpenAI] returned, and
    when it threw [e], in particular when the model failed with [e], the
    line that follows logs this [e]. *)
Theorem api_generate_effects (w : World) (b : body) (log : list event) :
  exists resp log',
    api_generate w b log = (Ok resp, log')
    /\ (status resp = 400 -> log' = log)
    /\ (status resp <> 400 ->
        exists u id did,
          url b = JStr u
          /\ extractVideoId (URL_new w) u = Ok (JStr id)
          /\ log' = log ++ FetchTranscript id :: did
          /\ (status resp = 404 -> did = [])
          /\ (status resp = 502 ->
              exists e,
                fetchTranscript w id = Throw e
                /\ did = [ConsoleError (lit "Transcript fetch failed:") e])
          /\ (status resp = 500 ->
              did = [ConsoleError (lit "Article generation failed:") TypeError])
          /\ (status resp = 200 ->
              (env_truthy (OPENAI_API_KEY w) = false -> did = [])
              /\ (did = []
                  \/ (exists p, did = [ResponsesCreate p])
                  \/ (exists p e,
                         did = [ResponsesCreate p;
                                ConsoleError (lit "OpenAI generation failed:") e]))
              /\ (env_truthy (OPENAI_API_KEY w) = true ->
                  exists segs sd ls,
                    fetchTranscript w id = Ok (Some segs)
                    /\ buildStyleDescriptor (body_stylePreset b)
                         (body_styleDetail b) (body_language b) = Ok sd
                    /\ lengthSpecFromChoice (body_length b) = Ok ls
                    /\ let tr := fst (prepareTranscript segs) in
                       let trunc := snd (prepareTranscript segs) in
                       let p := openai_request w tr sd ls trunc in
                       match fst (generateWithOpenAI w tr sd ls trunc
                                    (log ++ [FetchTranscript id])) with
                       | Ok _ => did = [ResponsesCreate p]
                       | Throw e =>
                           did = [ResponsesCreate p;
                                  ConsoleError (lit "OpenAI generation failed:") e]
                       end
                       /\ (forall e,
                              responses_create w p = Throw e ->
                              did = [ResponsesCreate p;
                                     ConsoleError
                                       (lit "OpenAI generation failed:") e])))).
Proof.
  assert (Htie : forall id sg segs sd ls res did,
             buildStyleDescriptor (body_stylePreset b) (body_styleDetail b)
               (body_language b) = Ok sd ->
             lengthSpecFromChoice (body_length b) = Ok ls ->
             generateArticle w (request_of b (sg :: segs))
               (log ++ [FetchTranscript id])
             = (Ok res, (log ++ [FetchTranscript id]) ++ did) ->
             fetchTranscript w id = Ok (Some (sg :: segs)) ->
             env_truthy (OPENAI_API_KEY w) = true ->
             exists segs0 sd0 ls0,
               fetchTranscript w id = Ok (Some segs0)
               /\ buildStyleDescriptor (body_stylePreset b)
                    (body_styleDetail b) (body_language b) = Ok sd0
               /\ lengthSpecFromChoice (body_length b) = Ok ls0
               /\ let tr := fst (prepareTranscript segs0) in
                  let trunc := snd (prepareTranscript segs0) in
                  let p := openai_request w tr sd0 ls0 trunc in
                  match fst (generateWithOpenAI w tr sd0 ls0 trunc
                               (log ++ [FetchTranscript id])) with
                  | Ok _ => did = [ResponsesCreate p]
                  | Throw e =>
                      did = [ResponsesCreate p;
                             ConsoleError (lit "OpenAI generation failed:") e]
                  end
                  /\ (forall e,
                         responses_create w p = Throw e ->
                         did = [ResponsesCreate p;
                                ConsoleError (lit "OpenAI generation failed:") e])).
  { intros id sg segs sd ls res did Hsd Hls Hgen Hfetch Hkey.
    exists (sg :: segs), sd, ls. split; [exact Hfetch|].
    split; [exact Hsd|]. split; [exact Hls|]. intros tr trunc p.
    pose proof (generateArticle_logged w (request_of b (sg :: segs)) _ did sd ls
                  res Hsd Hls Hkey Hgen) as Hlogged.
    cbn [request_of transcript truncated] in Hlogged. fold tr trunc p in Hlogged.
    split; [exact Hlogged|].
    intros e He.
    rewrite (generateWithOpenAI_failure w tr sd ls trunc _ e He) in Hlogged.
    exact Hlogged. }
  handler_cases w b log;
    (split; [try reflexivity; intros H; discriminate H|]);
    try (intros H; exfalso; apply H; reflexivity);
    intros _; exists u, id; eexists;
    (split; [exact Hurl|]); (split; [exact Hid|]); (split; [reflexivity|]);
    (split; [try reflexivity; intros H; discriminate H|]);
    (split; [first [ intros H; discriminate H
                   | intros _; exists e; split; [exact Hfetch|reflexivity] ]|]);
    (split; [try reflexivity; intros H; discriminate H|]);
    try (intros H; discriminate H).
  - intros _. split; [reflexivity|]. split; [left; reflexivity|]. congruence.
  - intros _. split; [congruence|].
    split; [right; left; eexists; reflexivity|]. intros _.
    eapply Htie; eassumption.
  - intros _. split; [congruence|].
    split; [right; left; eexists; reflexivity|]. intros _.
    eapply Htie; eassumption.
  - intros _. split; [congruence|].
    split; [right; right; eexists; eexists; reflexivity|]. intros _.
    eapply Htie; eassumption.
Qed.

Lemma ToString_ok_stringifiable :
  forall v s, ToString v = Ok s -> stringifiable v = true.
Proof.
  fix IH 1. intros [| |[|]|t sh|s0|items|props] s; simpl; intros H;
    try reflexivity.
  - revert s H. induction items as [|x rest IHrest]; intros s H;
      [reflexivity|].
    destruct (match x with
              | JUndefined | JNull => Ok []
              | _ => ToString x
              end) as [a|e'] eqn:Ha; [|discriminate H].
    cbn [rbind] in H.
    assert (Hx : stringifiable x = true).
    { destruct (ToString x) as [a'|e'] eqn:Hts; [exact (IH x a' Hts)|].
      clear IH IHrest. destruct x; try reflexivity; congruence. }
    rewrite Hx. cbn [andb].
    match type of H with
    | context [rbind (?J rest) _] => destruct (J rest) as [b|e''] eqn:Hb
    end.
    + exact (IHrest b eq_refl).
    + destruct rest as [|y rest']; [reflexivity|discriminate H].
  - destruct (has_own _ props); [discriminate H|reflexivity].
Qed.

Lemma clampText_ok_stringifiable (v : jsval) (n : nat) (s : jsstring) :
  clampText v n = Ok s -> stringifiable v = true.
Proof.
  unfold clampText. destruct (truthy v) eqn:Ht; cbn [negb].
  - destruct (ToString v) as [t|e] eqn:Hs; [|discriminate].
    intros _. exact (ToString_ok_stringifiable v t Hs).
  - intros _. destruct v as [| |[|]|[|] sh|[|c s0]|items|props];
      try reflexivity; discriminate Ht.
Qed.

Lemma fields_stringifiable_ok (b : body) (sd ls : jsstring) :
  buildStyleDescriptor (body_stylePreset b) (body_styleDetail b)
    (body_language b) = Ok sd ->
  lengthSpecFromChoice (body_length b) = Ok ls ->
  fields_stringifiable b = true.
Proof.
  intros Hsd Hls. unfold fields_stringifiable.
  unfold buildStyleDescriptor in Hsd.
  destruct (clampText (body_stylePreset b) STYLE_LIMIT) as [sp|] eqn:Hp;
    [|discriminate].
  destruct (clampText (body_styleDetail b) DETAIL_LIMIT) as [sdt|] eqn:Hd;
    [|discriminate].
  destruct (clampText (body_language b) 40) as [sl|] eqn:Hl; [|discriminate].
  rewrite (clampText_ok_stringifiable _ _ _ Hp),
    (clampText_ok_stringifiable _ _ _ Hd), (clampText_ok_stringifiable _ _ _ Hl).
  cbn [andb]. unfold lengthSpecFromChoice in Hls.
  destruct (truthy (body_length b)) eqn:Ht.
  - destruct (ToString (body_length b)) as [t|] eqn:Hs; [|discriminate].
    exact (ToString_ok_stringifiable _ t Hs).
  - destruct (body_length b) as [| |[|]|[|] sh|[|c s0]|items|props];
      try reflexivity; discriminate Ht.
Qed.

Lemma fields_stringifiable_not (b : body) :
  stringifiable (body_stylePreset b) = false
  \/ stringifiable (body_styleDetail b) = false
  \/ stringifiable (body_language b) = false
  \/ stringifiable (body_length b) = false ->
  fields_stringifiable b = false.
Proof.
  unfold fields_stringifiable.
  intros [E|[E|[E|E]]]; rewrite E, ?andb_false_r; reflexivity.
Qed.

(** X15: which status is answered.  It is 400 exactly when the body has
    no non-empty string [url] or no non-empty id is read from it.
    Otherwise the transcript service decides between 502 (it fails), 404
    (nothing or an empty list) and generation; generation answers 500
    exactly when a style field or the length choice cannot be converted
    to a string, and 200 otherwise, whatever the language model does. *)
Theorem api_generate_status (w : World) (b : body) (log : list event) :
  exists resp log',
    api_generate w b log = (Ok resp, log')
    /\ (status resp = 400 <->
        ~ exists u id,
            url b = JStr u /\ nonempty u = true
            /\ extractVideoId (URL_new w) u = Ok (JStr id)
            /\ nonempty id = true)
    /\ (forall u id,
          url b = JStr u -> nonempty u = true ->
          extractVideoId (URL_new w) u = Ok (JStr id) ->
          nonempty id = true ->
          (status resp = 502 <-> exists e, fetchTranscript w id = Throw e)
          /\ (status resp = 404 <->
              fetchTranscript w id = Ok None
              \/ fetchTranscript w id = Ok (Some []))
          /\ (status resp = 500 <->
              (exists sg segs, fetchTranscript w id = Ok (Some (sg :: segs)))
              /\ fields_stringifiable b = false)
          /\ (status resp = 200 <->
              (exists sg segs, fetchTranscript w id = Ok (Some (sg :: segs)))
              /\ fields_stringifiable b = true)).
Proof.
  handler_cases w b log.
  all: try match goal with
       | Hwhy : _ \/ _ \/ _ \/ _ |- _ => apply fields_stringifiable_not in Hwhy
       end.
  all: try pose proof (fields_stringifiable_ok b _ _ Hsd Hls) as Hfields.
  all: split;
    [ split;
      [ try (intros H; discriminate H); intros _;
        intros (u' & id' & Hurl' & Hu' & Hid' & Hnid')
      | try reflexivity; intros Hnone; exfalso; apply Hnone;
        exists u, id; repeat split; assumption ]
    | intros u' id' Hurl' Hu' Hid' Hnid' ].
  all: try (rewrite (Hno u' Hurl') in Hu'; discriminate Hu').
  all: rewrite Hurl in Hurl'; injection Hurl' as <-.
  all: try (rewrite Hid' in Hid).
  all: try (destruct Hid as [Hid|Hid]; try discriminate Hid;
            injection Hid as ->; discriminate Hnid').
  all: injection Hid as ->.
  all: try (destruct Hfetch as [Hfetch|Hfetch]).
  all: repeat match goal with
              | |- _ /\ _ => split
              | |- _ <-> _ => split
              end.
  all: intros H;
    first [ discriminate H
          | reflexivity
          | solve [eauto 6]
          | exfalso; decompose [ex and or] H; congruence ].
Qed.

(** ** The page *)

Lemma trim_nonempty (s : jsstring) : nonempty (trim s) = negb (blank s).
Proof.
  destruct (blank s) eqn:Hb.
  - rewrite (trim_blank s Hb). reflexivity.
  - destruct (blank_false_word s Hb) as (c & Hin & Hc).
    pose proof (trim_keeps s c Hin Hc) as H.
    destruct (trim s); [destruct H|reflexivity].
Qed.










(** X16: a URL field that holds nothing but white space sends no
    request and changes only the status line.  Any other content sends
    exactly one request: its [url] is the field's text without the white
    space around it, and every field of it is a string. *)
Theorem on_submit_request (br : Browser) (pg : Page) :
  (blank (urlInput_value pg) = true ->
   on_submit br pg
   = (setStatus (lit "Please provide a YouTube URL.") true pg, []))
  /\ (blank (urlInput_value pg) = false ->
      exists u,
        snd (on_submit br pg)
        = [ {| url := JStr u;
               body_stylePreset := JStr (stylePresetInput_value pg);
               body_styleDetail := JStr (styleDetailInput_value pg);
               body_length := JStr (lengthInput_value pg);
               body_language := JStr (languageInput_value pg) |} ]
        /\ nonempty u = true
        /\ trim u = u
        /\ (exists before after,
               urlInput_value pg = before ++ u ++ after
               /\ blank before = true /\ blank after = true)).
Proof.
  unfold on_submit. rewrite trim_nonempty. split; intros Hb; rewrite Hb;
    cbn [negb]; [reflexivity|].
  exists (trim (urlInput_value pg)).
  destruct (show_response _ _) as [completed pg']. cbn [snd].
  split; [reflexivity|]. split; [rewrite trim_nonempty, Hb; reflexivity|].
  split; [apply trim_idempotent|].
  destruct (trimStart_split (urlInput_value pg)) as (before & E1 & Hbefore).
  destruct (trimEnd_split (trimStart (urlInput_value pg))) as (after & E2 & Hafter).
  exists before, after. split; [|split; assumption].
  unfold trim. rewrite <- E2. exact E1.
Qed.


Lemma show_response_fails (message : jsstring) (pg : Page) :
  show_response (Fails message) pg = (Abrupt (ErrorObject message), pg).
Proof. reflexivity. Qed.

Lemma show_response_not_ok (payload : jsval) (pg : Page) :
  exists error,
    show_response (Responds false payload) pg = (Abrupt error, pg)
    /\ (forall props,
          payload = JObj props ->
          (forall e,
              property "error" props = JStr e -> nonempty e = true ->
              error = ErrorObject e)
          /\ (truthy (property "error" props) = false ->
              error = ErrorObject (lit "Request failed."))).
Proof.
  unfold show_response. cbn [negb]. unfold next.
  destruct payload as [| |b|nz sh|s|items|props];
    try (eexists; split; [reflexivity|intros ? H; discriminate H]).
  cbn [read done]. fold (property "error" props).
  unfold to_text.
  destruct (ToString (or_else (property "error" props)
                        (JStr (lit "Request failed.")))) as [m|bad] eqn:Hm.
  - exists (ErrorObject m). split; [reflexivity|].
    intros props' H. injection H as <-. split.
    + intros e He Hne. rewrite He in Hm. unfold or_else in Hm.
      cbn [truthy] in Hm. rewrite Hne in Hm. cbn [ToString] in Hm.
      congruence.
    + intros Hf. unfold or_else in Hm. rewrite Hf in Hm.
      cbn [ToString] in Hm. congruence.
  - exists NotPrimitive. split; [reflexivity|].
    intros props' H. injection H as <-. split.
    + intros e He Hne. rewrite He in Hm. unfold or_else in Hm.
      cbn [truthy] in Hm. rewrite Hne in Hm. discriminate Hm.
    + intros Hf. unfold or_else in Hm. rewrite Hf in Hm. discriminate Hm.
Qed.

(** X18: when the request fails or the response is not [ok], the page
    ends with an error status that is never empty, no transcript, no
    article, the truncation note hidden, the button enabled, and the
    generation label of the previous run still in place.  The status is
    the [error] text of the response body when it has one, [Request
    failed.] when it has none, and the message of a failed fetch. *)
Theorem on_submit_failure (br : Browser) (pg : Page) :
  let request := request_body (trim (urlInput_value pg)) pg in
  blank (urlInput_value pg) = false ->
  (forall payload, fetch br request <> Responds true payload) ->
  exists message,
    on_submit br pg
    = (settled pg message true [] [] (modeEl_textContent pg) true, [request])
    /\ nonempty message = true
    /\ (forall m,
          fetch br request = Fails m ->
          message = if nonempty m then m else lit "Something went wrong.")
    /\ (forall props,
          fetch br request = Responds false (JObj props) ->
          (forall e,
              property "error" props = JStr e -> nonempty e = true ->
              message = e)
          /\ (truthy (property "error" props) = false ->
              message = lit "Request failed.")).
Proof.
  intros request Hb Hnot. unfold on_submit. rewrite trim_nonempty, Hb.
  cbn [negb]. fold request.
  destruct (fetch br request) as [m|[|] payload] eqn:Hfetch.
  - rewrite show_response_fails. cbn [error_message].
    exists (if nonempty m then m else lit "Something went wrong.").
    split; [reflexivity|]. split; [destruct (nonempty m) eqn:E; [exact E|reflexivity]|].
    split; [intros m' H; injection H as <-; reflexivity|].
    intros props H. discriminate H.
  - exfalso. exact (Hnot payload eq_refl).
  - destruct (show_response_not_ok payload (waiting pg))
      as (error & -> & Herror).
    exists (if nonempty (error_message br error) then error_message br error
            else lit "Something went wrong.").
    split; [reflexivity|].
    split; [destruct (nonempty (error_message br error)) eqn:E;
            [exact E|reflexivity]|].
    split; [intros m H; discriminate H|].
    intros props H. injection H as ->.
    destruct (Herror props eq_refl) as [Hsome Hnone]. split.
    + intros e He Hne. rewrite (Hsome e He Hne). cbn [error_message].
      rewrite Hne. reflexivity.
    + intros Hf. rewrite (Hnone Hf). reflexivity.
Qed.

Lemma on_submit_failure_witness :
  exists message,
    on_submit offline example_page
    = (settled example_page message true [] [] (lit "Generation: OpenAI") true,
       [request_body (lit "https://youtu.be/abc123xy") example_page])
    /\ message = lit "Failed to fetch".
Proof.
  destruct (on_submit_failure offline example_page)
    as (message & Hrun & _ & Hm & _).
  - reflexivity.
  - intros payload H. discriminate H.
  - exists message. split; [exact Hrun|]. exact (Hm _ eq_refl).
Defined.

(** X19: the page in front of this server.  A submitted form always
    gets an answer; it is never status 500 and never the complaint about
    a missing URL.  An error answer leaves the page with the server's
    message as error status and empty outputs; a result leaves it with the
    server's transcript and article, the truncation note shown exactly
    when the transcript was truncated, and the label [Generation: OpenAI]
    for mode [openai], the rule-based label otherwise. *)
Theorem page_shows_answer (br : Browser) (w : World) (pg : Page) :
  let request := request_body (trim (urlInput_value pg)) pg in
  connected br w ->
  blank (urlInput_value pg) = false ->
  exists resp log',
    api_generate w request [] = (Ok resp, log')
    /\ status resp <> 500
    /\ json resp <> ErrorJson (lit "Please provide a YouTube URL.")
    /\ on_submit br pg
       = (match json resp with
          | ErrorJson message =>
              settled pg message true [] [] (modeEl_textContent pg) true
          | ResultJson videoId transcript truncated article mode =>
              settled pg (lit "Done! Review the transcript and article below.")
                false transcript article (mode_label mode) (negb truncated)
          end, [request]).
Proof.
  intros request Hconn Hb.
  assert (Hsent : on_submit br pg
                  = let (completed, pg') :=
                      show_response (fetch br request) (waiting pg) in
                    (setLoading false
                       match completed with
                       | Normal _ => pg'
                       | Abrupt error =>
                           setStatus
                             (if nonempty (error_message br error)
                              then error_message br error
                              else lit "Something went wrong.") true pg'
                       end, [request])).
  { unfold on_submit. rewrite trim_nonempty, Hb. reflexivity. }
  assert (Hfilled : nonempty (trim (urlInput_value pg)) = true)
    by (rewrite trim_nonempty, Hb; reflexivity).
  handler_cases w request (@nil event);
    match goal with
    | Hr : api_generate _ _ _ = _ |- _ =>
        pose proof (Hconn _ _ _ Hr) as Hfetch';
        cbn [status json error_answer response_ok json_of] in Hfetch'
    end;
    rewrite Hsent, Hfetch'.
  - exfalso. rewrite (Hno _ eq_refl) in Hfilled. discriminate Hfilled.
  - split; [discriminate|]. split; [discriminate|]. reflexivity.
  - split; [discriminate|]. split; [discriminate|]. reflexivity.
  - split; [discriminate|]. split; [discriminate|]. reflexivity.
  - exfalso. destruct Hwhy as [H|[H|[H|H]]]; discriminate H.
  - split; [discriminate|]. split; [discriminate|].
    destruct (fst (prepareTranscript (sg :: segs))), fb; reflexivity.
  - split; [discriminate|]. split; [discriminate|].
    destruct (fst (prepareTranscript (sg :: segs))), text; reflexivity.
  - split; [discriminate|]. split; [discriminate|].
    destruct (fst (prepareTranscript (sg :: segs))), fb; reflexivity.
  - split; [discriminate|]. split; [discriminate|].
    destruct (fst (prepareTranscript (sg :: segs))), fb; reflexivity.
Qed.

Lemma browser_of_connected (w : World) (engine : thrown -> jsstring)
  (clipboard : jsstring -> bool) :
  connected (browser_of w engine clipboard) w.
Proof.
  intros b resp log' H. unfold browser_of. cbn [fetch]. rewrite H. reflexivity.
Qed.

Lemma page_shows_answer_witness :
  exists resp log',
    api_generate world_without_key
      (request_body (lit "https://youtu.be/abc123xy") example_page) []
    = (Ok resp, log')
    /\ status resp <> 500.
Proof.
  destruct (page_shows_answer
              (browser_of world_without_key (fun _ => []) (fun _ => true))
              world_without_key example_page)
    as (resp & log' & Hrun & Hstatus & _).
  - apply browser_of_connected.
  - reflexivity.
  - exists resp, log'. split; [exact Hrun|exact Hstatus].
Defined.

(** X20: a copy button changes nothing on the page but the status
    line.  Text reaches the clipboard only as the target's content without
    the white space around it, and never when that is empty or the target
    is missing: then the status is the error [Nothing to copy yet.].  The
    status is [Copied to clipboard.] without error exactly when the text
    was written. *)
Theorem on_copy_clipboard (br : Browser) (targetEl : option element)
  (pg : Page) :
  let after := fst (on_copy br targetEl pg) in
  let copied := snd (on_copy br targetEl pg) in
  after = setStatus (statusEl_textContent after) (statusEl_error after) pg
  /\ (copied = []
      \/ exists el,
          targetEl = Some el
          /\ copied = [trim (textContent el pg)]
          /\ blank (textContent el pg) = false
          /\ writeText br (trim (textContent el pg)) = true)
  /\ (forall text, In text copied -> nonempty text = true /\ trim text = text)
  /\ (copied <> [] <->
      statusEl_textContent after = lit "Copied to clipboard.")
  /\ (copied <> [] <-> statusEl_error after = false)
  /\ ((targetEl = None
       \/ exists el, targetEl = Some el /\ blank (textContent el pg) = true) ->
      statusEl_textContent after = lit "Nothing to copy yet.").
Proof.
  intros after copied. subst after copied. unfold on_copy.
  destruct targetEl as [el|].
  2:{ cbn [fst snd]. split; [reflexivity|]. split; [left; reflexivity|].
      split; [intros text []|].
      split; [split; [intros H; contradiction|intros H; discriminate H]|].
      split; [split; [intros H; contradiction|intros H; discriminate H]|].
      intros _. reflexivity. }
  rewrite trim_nonempty.
  destruct (blank (textContent el pg)) eqn:Hb; cbn [negb].
  { cbn [fst snd]. split; [reflexivity|]. split; [left; reflexivity|].
    split; [intros text []|].
    split; [split; [intros H; contradiction|intros H; discriminate H]|].
    split; [split; [intros H; contradiction|intros H; discriminate H]|].
    intros _. reflexivity. }
  destruct (writeText br (trim (textContent el pg))) eqn:Hw; cbn [fst snd].
  - split; [reflexivity|].
    split; [right; exists el; repeat split; assumption|].
    split.
    { intros text [<-|[]]. split; [rewrite trim_nonempty, Hb; reflexivity|].
      apply trim_idempotent. }
    split; [split; [reflexivity|discriminate]|].
    split; [split; [reflexivity|discriminate]|].
    intros [H|(el' & H & Hb')]; [discriminate H|].
    injection H as <-. congruence.
  - split; [reflexivity|]. split; [left; reflexivity|].
    split; [intros text []|].
    split; [split; [intros H; contradiction|intros H; discriminate H]|].
    split; [split; [intros H; contradiction|intros H; discriminate H]|].
    intros [H|(el' & H & Hb')]; [discriminate H|].
    injection H as <-. congruence.
Qed.

(** ** What reaches the language model *)






